(** * cmXCodeObject and cmCPackNSISGenerator: a shallow embedding

    This development embeds, function by function, the parts of

      - Source/cmXCodeObject.cxx        (Xcode project object graph:
                                         identifiers, quoting, printing)
      - Source/CPack/cmCPackNSISGenerator.cxx   (NSIS installer backend)

    that the specification speaks about, and proves or refutes the
    specification's statements on them.

    Conventions.
      - [std::string] is [string]; a [char] is an [ascii].
      - [std::ostream& out]: every printing function returns the text it
        appends to the stream, and sequencing of writes is concatenation.
      - A pointer that may be null is an [option]; dereferencing a null
        pointer makes the printing function return [None].
      - The elements of a [std::vector<cmXCodeObject*>] are nodes: a
        vector with a null pointer in it is outside the embedding.
      - [s.c_str()] handed to a stream or to a [const char*] parameter
        is [Str.c_str s], the characters before the first NUL byte.
      - [size_t] is an [N] reduced modulo [2^64] after each arithmetic
        operation; [uint8_t] is a [byte]. *)

From Stdlib Require Import ZArith NArith Ascii Lia Bool.
From Stdlib Require Strings.Byte.
From stdpp Require Import gmap strings list.

#[local] Set Warnings "-register-all".
#[local] Arguments String.append : simpl nomatch.

(* ===================================================================== *)
(** * Characters and strings *)
(* ===================================================================== *)

Module Str.

(** Characters that the sources write as escapes. *)
Definition dquote    : ascii := "034"%char.
Definition backslash : ascii := "092"%char.
Definition newline   : ascii := "010"%char.
Definition tab       : ascii := "009"%char.
Definition hyphen    : ascii := "-"%char.
Definition slash     : ascii := "/"%char.

Definition chr (c : ascii) : string := String c EmptyString.

(** [std::string::empty]. *)
Definition empty (s : string) : bool :=
  match s with EmptyString => true | String _ _ => false end.

(** [s1] is an initial segment of [s2]. *)
Fixpoint starts_with (s1 s2 : string) : bool :=
  match s1, s2 with
  | EmptyString, _ => true
  | String _ _, EmptyString => false
  | String a s1', String b s2' => Ascii.eqb a b && starts_with s1' s2'
  end.

(** [std::string::find(pat)]: position of the first occurrence of [pat],
    [None] standing for [npos]. *)
Fixpoint find (pat s : string) : option nat :=
  if starts_with pat s then Some 0
  else match s with
       | EmptyString => None
       | String _ s' => S <$> find pat s'
       end.

(** Membership of a character in a character set given as a string. *)
Fixpoint mem (c : ascii) (set : string) : bool :=
  match set with
  | EmptyString => false
  | String d set' => Ascii.eqb c d || mem c set'
  end.

(** [std::string::find_first_not_of(set)]. *)
Fixpoint find_first_not_of (set s : string) : option nat :=
  match s with
  | EmptyString => None
  | String c s' =>
      if mem c set then S <$> find_first_not_of set s' else Some 0
  end.

(** [std::string::substr(0, n)]. *)
Definition substr0 (n : nat) (s : string) : string := String.substring 0 n s.

(** [s.erase(s.begin() + i)]: the iterator overload of [erase] removes the
    single character at position [i]. *)
Fixpoint erase_at (i : nat) (s : string) : string :=
  match s with
  | EmptyString => EmptyString
  | String c s' =>
      match i with
      | O => s'
      | S j => String c (erase_at j s')
      end
  end.

(** The characters of a string, as a list. *)
Definition chars (s : string) : list ascii := String.list_ascii_of_string s.

(** [n] copies of a character. *)
Fixpoint replicate (n : nat) (c : ascii) : string :=
  match n with
  | O => EmptyString
  | S k => String c (replicate k c)
  end.

(** Concatenation of a list of strings. *)
Fixpoint cat (l : list string) : string :=
  match l with
  | [] => EmptyString
  | s :: l' => s +:+ cat l'
  end.

(** Every character of [s] satisfies [p]. *)
Fixpoint all (p : ascii -> bool) (s : string) : bool :=
  match s with
  | EmptyString => true
  | String c s' => p c && all p s'
  end.

(** The NUL byte, and the test for any other character. *)
Definition nul : ascii := "000"%char.
Definition not_nul (c : ascii) : bool := negb (Ascii.eqb c nul).

(** [s.c_str()] read as a C string, by [operator<<] on a stream or by a
    function that takes a [const char*]: the characters before the
    first NUL byte. *)
Fixpoint c_str (s : string) : string :=
  match s with
  | EmptyString => EmptyString
  | String c s' => if Ascii.eqb c nul then EmptyString else String c (c_str s')
  end.

(** [s] contains [pat] as a contiguous substring. *)
Definition contains (pat s : string) : Prop :=
  exists a b, s = a +:+ pat +:+ b.

End Str.

(* ===================================================================== *)
(** * cmXCodeObject::PrintString (the quoting rule) *)
(* ===================================================================== *)

(** The alphabet of characters that never force quoting, as the literal
    passed to [find_first_not_of]. *)
Definition unquoted_alphabet : string :=
  "ABCDEFGHIJKLMNOPQRSTUVWXYZ" +:+
  "abcdefghijklmnopqrstuvwxyz" +:+
  "0123456789" +:+
  "$_./".

(** [bool needQuote = String.empty() || String.find("//") != npos ||
                      String.find_first_not_of(...) != npos]. *)
Definition needQuote (s : string) : bool :=
  Str.empty s
  || bool_decide (Str.find "//" s <> None)
  || bool_decide (Str.find_first_not_of unquoted_alphabet s <> None).

(** The loop [for (auto c : String)] with its escaping branch. *)
Fixpoint escape_loop (s : string) : string :=
  match s with
  | EmptyString => EmptyString
  | String c s' =>
      (if Ascii.eqb c Str.dquote || Ascii.eqb c Str.backslash
       then Str.chr Str.backslash else EmptyString)
      +:+ String c (escape_loop s')
  end.

(** [static void PrintString(std::ostream& os, const std::string& String)]. *)
Definition PrintString (s : string) : string :=
  let quote := if needQuote s then Str.chr Str.dquote else EmptyString in
  quote +:+ escape_loop s +:+ quote.

(* ===================================================================== *)
(** * The node type *)
(* ===================================================================== *)

(** Modelled from the spec: the entity-type enumeration is declared in
    cmXCodeObject.h, which is not among the sources; its members are taken
    to be those of the table [PBXTypeNames], in the table's order. *)
Inductive PBXType : Set :=
  | PBXGroup | PBXBuildStyle | PBXProject | PBXHeadersBuildPhase
  | PBXSourcesBuildPhase | PBXFrameworksBuildPhase | PBXNativeTarget
  | PBXFileReference | PBXBuildFile | PBXContainerItemProxy
  | PBXTargetDependency | PBXShellScriptBuildPhase
  | PBXResourcesBuildPhase | PBXApplicationReference
  | PBXExecutableFileReference | PBXLibraryReference | PBXToolTarget
  | PBXLibraryTarget | PBXAggregateTarget | XCBuildConfiguration
  | XCConfigurationList | PBXCopyFilesBuildPhase | PBXNone.

(** Modelled from the spec: the node-kind enumeration [Type] of
    cmXCodeObject.h, with the five members that [IsEmpty] switches over. *)
Inductive Type_ : Set :=
  | OBJECT_LIST | STRING | ATTRIBUTE_GROUP | OBJECT_REF | OBJECT.

#[global] Instance PBXType_eq_dec : EqDecision PBXType.
Proof. solve_decision. Defined.
#[global] Instance Type_eq_dec : EqDecision Type_.
Proof. solve_decision. Defined.

(** The integer value of an enumerator. *)
Definition PBXType_index (t : PBXType) : nat :=
  match t with
  | PBXGroup => 0 | PBXBuildStyle => 1 | PBXProject => 2
  | PBXHeadersBuildPhase => 3 | PBXSourcesBuildPhase => 4
  | PBXFrameworksBuildPhase => 5 | PBXNativeTarget => 6
  | PBXFileReference => 7 | PBXBuildFile => 8
  | PBXContainerItemProxy => 9 | PBXTargetDependency => 10
  | PBXShellScriptBuildPhase => 11 | PBXResourcesBuildPhase => 12
  | PBXApplicationReference => 13 | PBXExecutableFileReference => 14
  | PBXLibraryReference => 15 | PBXToolTarget => 16
  | PBXLibraryTarget => 17 | PBXAggregateTarget => 18
  | XCBuildConfiguration => 19 | XCConfigurationList => 20
  | PBXCopyFilesBuildPhase => 21 | PBXNone => 22
  end.

(** [const char* cmXCodeObject::PBXTypeNames[]]. *)
Definition PBXTypeNames : list string :=
  [ "PBXGroup"; "PBXBuildStyle"; "PBXProject"; "PBXHeadersBuildPhase";
    "PBXSourcesBuildPhase"; "PBXFrameworksBuildPhase"; "PBXNativeTarget";
    "PBXFileReference"; "PBXBuildFile"; "PBXContainerItemProxy";
    "PBXTargetDependency"; "PBXShellScriptBuildPhase";
    "PBXResourcesBuildPhase"; "PBXApplicationReference";
    "PBXExecutableFileReference"; "PBXLibraryReference"; "PBXToolTarget";
    "PBXLibraryTarget"; "PBXAggregateTarget"; "XCBuildConfiguration";
    "XCConfigurationList"; "PBXCopyFilesBuildPhase"; "None" ].

(** [PBXTypeNames[this->IsA]]. *)
Definition PBXTypeName (t : PBXType) : string :=
  default EmptyString (PBXTypeNames !! PBXType_index t).

(** The fields of [class cmXCodeObject] that the translated functions
    touch.  Pointers to other nodes are replaced by the nodes they point
    to; a pointer that may be null is an [option].  The elements of the
    vector [List] are taken not to be null: [List_] holds nodes, and what
    is said of [PrintAttribute], which dereferences each element
    unchecked, is said of such lists only.  [Target] is an opaque
    handle.  [Comment] is the text behind [HasComment]/[PrintComment]. *)
Inductive cmXCodeObject : Type := mk_cmXCodeObject {
  Version          : Z;
  Target           : option nat;
  Object           : option cmXCodeObject;
  IsA              : PBXType;
  Id               : string;
  TypeValue        : Type_;
  Comment          : string;
  ObjectAttributes : list (string * option cmXCodeObject);
  List_            : list cmXCodeObject;
  String_          : string
}.

(** Modelled from the spec: [AddAttribute] of cmXCodeObject.h binds [name]
    to [value] in the attribute mapping; an existing entry of that name is
    replaced where it stands, a new one is added at the end. *)
Fixpoint AddAttribute (name : string) (value : option cmXCodeObject)
    (attrs : list (string * option cmXCodeObject))
    : list (string * option cmXCodeObject) :=
  match attrs with
  | [] => [(name, value)]
  | (k, v) :: rest =>
      if String.eqb k name then (name, value) :: rest
      else (k, v) :: AddAttribute name value rest
  end.

(** [bool cmXCodeObject::IsEmpty() const]. *)
Definition IsEmpty (o : cmXCodeObject) : bool :=
  match TypeValue o with
  | OBJECT_LIST => bool_decide (List_ o = [])
  | STRING => Str.empty (String_ o)
  | ATTRIBUTE_GROUP =>
      match ObjectAttributes o with [] => true | _ :: _ => false end
  | OBJECT_REF | OBJECT =>
      match Object o with None => true | Some _ => false end
  end.

(** [void cmXCodeObject::CopyAttributes(cmXCodeObject* copy)]: the
    receiver after the call. *)
Definition CopyAttributes (this copy : cmXCodeObject) : cmXCodeObject :=
  {| Version := Version this;
     Target := Target this;
     Object := Object copy;
     IsA := IsA this;
     Id := Id this;
     TypeValue := TypeValue this;
     Comment := Comment this;
     ObjectAttributes := ObjectAttributes copy;
     List_ := List_ copy;
     String_ := String_ copy |}.

(** [void cmXCodeObject::SetString(const std::string& s)]. *)
Definition SetString (this : cmXCodeObject) (s : string) : cmXCodeObject :=
  {| Version := Version this;
     Target := Target this;
     Object := Object this;
     IsA := IsA this;
     Id := Id this;
     TypeValue := TypeValue this;
     Comment := Comment this;
     ObjectAttributes := ObjectAttributes this;
     List_ := List_ this;
     String_ := s |}.

(* ===================================================================== *)
(** * Number rendering *)
(* ===================================================================== *)

Module Num.

Local Open Scope N_scope.

(** [SIZE_MAX + 1] for the 64-bit [size_t] of the platforms that have
    CommonCrypto. *)
Definition size_t_modulus : N := 2 ^ 64.

(** The character of a digit value below 16, lower case as [std::hex]
    without [std::uppercase] prints it. *)
Definition digit_char (d : N) : ascii :=
  if d <? 10 then ascii_of_N (48 + d) else ascii_of_N (87 + d).

(** Positional rendering, least significant digit first, the way the
    standard library's integer formatting produces it: at most [fuel]
    digits, stopping as soon as the quotient is zero. *)
Fixpoint render (base : N) (fuel : nat) (n : N) (acc : string) : string :=
  match fuel with
  | O => acc
  | S f =>
      let acc' := String (digit_char (n mod base)) acc in
      if n / base =? 0 then acc' else render base f (n / base) acc'
  end.

(** [std::to_string(size_t)]: a 64-bit value has at most 20 decimal
    digits. *)
Definition to_string (n : N) : string := render 10 20 n EmptyString.

(** [stream << std::hex << (int)b] for a [uint8_t b]: at most 2 digits. *)
Definition hex (n : N) : string := render 16 2 n EmptyString.

(** [std::setw(w) << std::setfill(c)] applied to the next item written. *)
Definition setw_setfill (w : nat) (c : ascii) (item : string) : string :=
  Str.replicate (w - String.length item) c +:+ item.

(** All [w] digits of [n mod 10^w], most significant first. *)
Fixpoint fixed_width (w : nat) (n : N) : string :=
  match w with
  | O => EmptyString
  | S w' => fixed_width w' (n / 10) +:+ Str.chr (digit_char (n mod 10))
  end.

(** The [len] numbers from [start] on. *)
Fixpoint count_from (start : N) (len : nat) : list N :=
  match len with
  | O => []
  | S l => start :: count_from (start + 1) l
  end.

End Num.

(* ===================================================================== *)
(** * The identifier generator *)
(* ===================================================================== *)

(** Modelled from the spec: [cmSystemTools::ReplaceString(source, replace,
    with)] is not among the sources; it replaces, scanning from the left,
    every occurrence of the non-empty text [replace] in [source] by [with].
    [skip] counts the characters of an occurrence still to be dropped. *)
Fixpoint ReplaceString_from (skip : nat) (source replace with_ : string)
    : string :=
  match source with
  | EmptyString => EmptyString
  | String c rest =>
      match skip with
      | S k => ReplaceString_from k rest replace with_
      | O =>
          if Str.starts_with replace source
          then with_ +:+
               ReplaceString_from (String.length replace - 1) rest
                 replace with_
          else String c (ReplaceString_from 0 rest replace with_)
      end
  end.

Definition ReplaceString (source replace with_ : string) : string :=
  if Str.empty replace then source
  else ReplaceString_from 0 source replace with_.

(** The file-scope statics [objectIdCache] and [sequenceIndex].  The mutex
    [objectIdCacheMutex] has no effect on a sequential execution. *)
Record IdState : Type := mk_IdState {
  objectIdCache : gmap string string;
  sequenceIndex : N
}.

(** The statics at program start. *)
Definition IdState_init : IdState :=
  {| objectIdCache := ∅; sequenceIndex := 0 |}.

(** [void cmXCodeObject::resetIdSequence()]. *)
Definition resetIdSequence (st : IdState) : IdState :=
  {| objectIdCache := objectIdCache st; sequenceIndex := 0 |}.

(** [sequenceIndex += 1] on a [size_t]: the counter after the increment. *)
Definition next_index (st : IdState) : N :=
  ((sequenceIndex st + 1) mod Num.size_t_modulus)%N.

(** [while (id.length() < 22) { id = "0" + id; }] *)
Fixpoint pad_loop (fuel : nat) (id : string) : string :=
  match fuel with
  | O => id
  | S f =>
      if String.length id <? 22 then pad_loop f ("0" +:+ id) else id
  end.

(** The sentinel identifier of nodes that are not of kind [OBJECT]. *)
Definition temporary_id : string :=
  "Temporary cmake object, should not be referred to in Xcode file".

Module Identity.

Section IdentityGenerator.

(** [CC_SHA256] of CommonCrypto, a library outside the repository: the
    digest of a byte string, as the bytes it stores into [digest]. *)
Context (CC_SHA256 : string -> list Byte.byte).

(** [(int)digest[i]]; the array is zero-initialised. *)
Definition digest_at (digest : list Byte.byte) (i : nat) : N :=
  Byte.to_N (nth i digest Byte.x00).

(** [for (size_t i = 0; i < 12; i += 1)]: the contents of [idStream]
    after the iterations [i, i+1, ..., i+count-1]. *)
Fixpoint idStream_loop (digest : list Byte.byte) (i count : nat) : string :=
  match count with
  | O => EmptyString
  | S c =>
      Num.setw_setfill 2 "0"%char (Num.hex (digest_at digest i))
      +:+ idStream_loop digest (S i) c
  end.

(** The [else] branch of [cmGetUniqueXcodeId] up to the cache update:
    the identifier computed for a key that is not cached. *)
Definition computed_id (hashingKey prefix : string) : string :=
  let digest := CC_SHA256 hashingKey in
  let xcodeId := prefix +:+ idStream_loop digest 0 12 in
  if 24 <? String.length xcodeId then Str.erase_at 24 xcodeId else xcodeId.

(** [static std::string cmGetUniqueXcodeId(const std::string& hashingKey,
                                           const std::string& prefix)]. *)
Definition cmGetUniqueXcodeId (hashingKey prefix : string) (st : IdState)
    : string * IdState :=
  let lookupKey := prefix +:+ "-" +:+ hashingKey in
  match objectIdCache st !! lookupKey with
  | Some cached => (cached, st)
  | None =>
      let xcodeId := computed_id hashingKey prefix in
      (xcodeId,
       {| objectIdCache := <[lookupKey := xcodeId]> (objectIdCache st);
          sequenceIndex := sequenceIndex st |})
  end.

(** The part of the constructor that chooses [this->Id], before
    normalisation. *)
Definition ctor_raw_id (type : Type_) (hashingKey : string) (st : IdState)
    : string * IdState :=
  match type with
  | OBJECT =>
      if String.length hashingKey =? 0 then
        let index := next_index st in
        let id := pad_loop 22 (Num.to_string index) in
        ("01" +:+ id,
         {| objectIdCache := objectIdCache st; sequenceIndex := index |})
      else cmGetUniqueXcodeId hashingKey "02" st
  | _ => (temporary_id, st)
  end.

(** The hyphens of [this->Id] are replaced by nothing; then
    [if (this->Id.size() > 24) this->Id = this->Id.substr(0, 24);] *)
Definition normalise_id (id : string) : string :=
  let id := ReplaceString id "-" EmptyString in
  if 24 <? String.length id then Str.substr0 24 id else id.

(** [cmXCodeObject::cmXCodeObject(PBXType ptype, Type type,
                                  const std::string& hashingKey)]:
    the constructed node and the statics after the call. *)
Definition new_cmXCodeObject (ptype : PBXType) (type : Type_)
    (hashingKey : string) (st : IdState) : cmXCodeObject * IdState :=
  let '(id, st') := ctor_raw_id type hashingKey st in
  ({| Version := 15;
      Target := None;
      Object := None;
      IsA := ptype;
      Id := normalise_id id;
      TypeValue := type;
      Comment := EmptyString;
      ObjectAttributes :=
        if decide (type = OBJECT) then AddAttribute "isa" None [] else [];
      List_ := [];
      String_ := EmptyString |},
   st').

(** One call that touches the statics. *)
Inductive call : Type :=
  | Construct (ptype : PBXType) (type : Type_) (hashingKey : string)
  | Reset.

(** The statics after a call. *)
Definition call_state (c : call) (st : IdState) : IdState :=
  match c with
  | Construct ptype type key => (new_cmXCodeObject ptype type key st).2
  | Reset => resetIdSequence st
  end.

(** The states of the statics that a program can reach. *)
Inductive reachable : IdState -> Prop :=
  | reachable_init : reachable IdState_init
  | reachable_call c st : reachable st -> reachable (call_state c st).

(** A generation pass: the constructor calls in order, the identifiers
    they assign, and the statics at the end. *)
Fixpoint generation_pass (calls : list (PBXType * Type_ * string))
    (st : IdState) : list string * IdState :=
  match calls with
  | [] => ([], st)
  | (ptype, type, key) :: rest =>
      let '(o, st1) := new_cmXCodeObject ptype type key st in
      let '(ids, st2) := generation_pass rest st1 in
      (Id o :: ids, st2)
  end.

(** A constructor call that draws from the sequence counter. *)
Definition is_sequential (c : PBXType * Type_ * string) : bool :=
  bool_decide (c.1.2 = OBJECT) && Str.empty c.2.

(** How many of the calls draw from the sequence counter. *)
Definition draws (calls : list (PBXType * Type_ * string)) : nat :=
  length (filter (fun c => is_sequential c = true) calls).

(** The identifiers that a pass draws from the sequence counter, in the
    order of issuance. *)
Fixpoint sequential_ids (calls : list (PBXType * Type_ * string))
    (st : IdState) : list string :=
  match calls with
  | [] => []
  | c :: rest =>
      let '(o, st1) := new_cmXCodeObject c.1.1 c.1.2 c.2 st in
      (if is_sequential c then [Id o] else []) ++ sequential_ids rest st1
  end.

(** Every cached identifier is the one computed for its key under the
    tag of the only call site. *)
Definition cache_canonical (st : IdState) : Prop :=
  forall lookupKey cached,
    objectIdCache st !! lookupKey = Some cached ->
    exists hashingKey,
      lookupKey = "02-" +:+ hashingKey /\
      cached = computed_id hashingKey "02".

End IdentityGenerator.

End Identity.
Import Identity.

(* ===================================================================== *)
(** * SHA-256 (FIPS 180-4), the function behind [CC_SHA256] *)
(* ===================================================================== *)

(** CommonCrypto is not part of the repository; the identifier generator
    above is parametric in the digest.  This module is the standard's
    definition of the function, used to evaluate the generator on
    concrete keys. *)
Module SHA256.

Local Open Scope N_scope.

Definition add32 (x y : N) : N := (x + y) mod 2 ^ 32.
Definition rotr (n x : N) : N :=
  N.lor (N.shiftr x n) (N.shiftl x (32 - n) mod 2 ^ 32).
Definition not32 (x : N) : N := N.lxor x 0xffffffff.

Definition Ch (x y z : N) : N := N.lxor (N.land x y) (N.land (not32 x) z).
Definition Maj (x y z : N) : N :=
  N.lxor (N.lxor (N.land x y) (N.land x z)) (N.land y z).
Definition Sigma0 (x : N) : N :=
  N.lxor (N.lxor (rotr 2 x) (rotr 13 x)) (rotr 22 x).
Definition Sigma1 (x : N) : N :=
  N.lxor (N.lxor (rotr 6 x) (rotr 11 x)) (rotr 25 x).
Definition sigma0 (x : N) : N :=
  N.lxor (N.lxor (rotr 7 x) (rotr 18 x)) (N.shiftr x 3).
Definition sigma1 (x : N) : N :=
  N.lxor (N.lxor (rotr 17 x) (rotr 19 x)) (N.shiftr x 10).

(** The largest [x] below [2 ^ bit] above the bits already fixed with
    [x ^ k <= target]: an integer root, found bit by bit. *)
Fixpoint root_bits (k target : N) (bit : nat) (x : N) : N :=
  match bit with
  | O => x
  | S b =>
      let y := x + 2 ^ N.of_nat b in
      root_bits k target b (if y ^ k <=? target then y else x)
  end.

(** The first 32 bits of the fractional part of the [k]-th root of [p]. *)
Definition root_fraction (k p : N) : N :=
  root_bits k (p * 2 ^ (32 * k)) 40 0 mod 2 ^ 32.

Definition first_primes : list N :=
  [ 2; 3; 5; 7; 11; 13; 17; 19; 23; 29; 31; 37; 41; 43; 47; 53;
    59; 61; 67; 71; 73; 79; 83; 89; 97; 101; 103; 107; 109; 113; 127; 131;
    137; 139; 149; 151; 157; 163; 167; 173; 179; 181; 191; 193; 197; 199;
    211; 223; 227; 229; 233; 239; 241; 251; 257; 263; 269; 271; 277; 281;
    283; 293; 307; 311 ].

(** The round constants: from the cube roots of the first 64 primes.
    They are computed once, here. *)
Definition K : list N :=
  Eval vm_compute in map (root_fraction 3) first_primes.

(** The eight working variables, also the intermediate hash value. *)
Record hash : Type := mk_hash { ha : N; hb : N; hc : N; hd : N;
                                he : N; hf : N; hg : N; hh : N }.

(** The initial hash value: from the square roots of the first 8
    primes. *)
Definition H0 : hash :=
  Eval vm_compute in
  mk_hash (root_fraction 2 2) (root_fraction 2 3) (root_fraction 2 5)
          (root_fraction 2 7) (root_fraction 2 11) (root_fraction 2 13)
          (root_fraction 2 17) (root_fraction 2 19).

(** Padding: the byte 0x80, zero bytes up to 56 modulo 64, and the bit
    length as a 64-bit big-endian integer. *)
Definition be_bytes (count : nat) (x : N) : list N :=
  map (fun i => (x / 2 ^ (8 * N.of_nat i)) mod 256) (rev (seq 0 count)).

Definition pad (msg : list N) : list N :=
  let len := length msg in
  let zeros := (Nat.modulo (119 - Nat.modulo len 64) 64)%nat in
  msg ++ [0x80] ++ repeat 0 zeros ++ be_bytes 8 (8 * N.of_nat len).

Fixpoint be_words (count : nat) (bytes : list N) : list N :=
  match count with
  | O => []
  | S c =>
      match bytes with
      | b0 :: b1 :: b2 :: b3 :: rest =>
          (((b0 * 256 + b1) * 256 + b2) * 256 + b3) :: be_words c rest
      | _ => []
      end
  end.

(** The message schedule: [W] holds the words computed so far, the
    latest first. *)
Fixpoint schedule (count : nat) (W : list N) : list N :=
  match count with
  | O => W
  | S c =>
      let w := add32 (add32 (sigma1 (nth 1 W 0)) (nth 6 W 0))
                     (add32 (sigma0 (nth 14 W 0)) (nth 15 W 0)) in
      schedule c (w :: W)
  end.

Definition round (s : hash) (kw : N * N) : hash :=
  let T1 := add32 (add32 (add32 (hh s) (Sigma1 (he s)))
                         (add32 (Ch (he s) (hf s) (hg s)) kw.1)) kw.2 in
  let T2 := add32 (Sigma0 (ha s)) (Maj (ha s) (hb s) (hc s)) in
  mk_hash (add32 T1 T2) (ha s) (hb s) (hc s)
          (add32 (hd s) T1) (he s) (hf s) (hg s).

Definition compress (H : hash) (block : list N) : hash :=
  let W := rev (schedule 48 (rev (be_words 16 block))) in
  let s := fold_left round (zip K W) H in
  mk_hash (add32 (ha H) (ha s)) (add32 (hb H) (hb s))
          (add32 (hc H) (hc s)) (add32 (hd H) (hd s))
          (add32 (he H) (he s)) (add32 (hf H) (hf s))
          (add32 (hg H) (hg s)) (add32 (hh H) (hh s)).

Fixpoint blocks (count : nat) (bytes : list N) (H : hash) : hash :=
  match count with
  | O => H
  | S c => blocks c (drop 64 bytes) (compress H (take 64 bytes))
  end.

Definition to_byte (n : N) : Byte.byte :=
  default Byte.x00 (Byte.of_N (n mod 256)).

Definition word_bytes (x : N) : list Byte.byte :=
  [ to_byte (x / 2 ^ 24); to_byte (x / 2 ^ 16); to_byte (x / 2 ^ 8);
    to_byte x ].

Definition digest_bytes (H : hash) : list Byte.byte :=
  word_bytes (ha H) ++ word_bytes (hb H) ++ word_bytes (hc H) ++
  word_bytes (hd H) ++ word_bytes (he H) ++ word_bytes (hf H) ++
  word_bytes (hg H) ++ word_bytes (hh H).

Definition sha256 (msg : string) : list Byte.byte :=
  let bytes := pad (map N_of_ascii (Str.chars msg)) in
  digest_bytes (blocks (length bytes / 64)%nat bytes H0).

End SHA256.


(* ===================================================================== *)
(** * The serializer *)
(* ===================================================================== *)

(** [void cmXCodeObject::Indent(int level, std::ostream& out)].  Every
    call site passes a product of non-negative numbers, so the level is a
    [nat] and the loop is its recursion. *)
Fixpoint Indent (level : nat) : string :=
  match level with
  | O => EmptyString
  | S l => Str.chr Str.tab +:+ Indent l
  end.

(** The separator of the expanded layout. *)
Definition nl : string := Str.chr Str.newline.

(** [PrintString(std::ostream& os) const]. *)
Definition PrintString_of (o : cmXCodeObject) : string :=
  PrintString (String_ o).

Module Serial.

Section Serializer.

(** [HasComment] and [PrintComment] are declared in cmXCodeObject.h and
    defined outside the sources: whether a node has a comment, and the
    text that printing its comment appends to the stream. *)
Context (HasComment : cmXCodeObject -> bool).
Context (PrintComment : cmXCodeObject -> string).

(** The body of the loop [for (unsigned int i = 0; i < List.size(); ++i)]
    of the [OBJECT_LIST] case, from index [i] on; [size] is
    [object->List.size()] and [elems] the elements from [i] on.  The
    index is a [nat]: a vector of fewer than [2^32] elements is assumed,
    on which the 32-bit index does not wrap. *)
Fixpoint list_loop (level factor : nat) (separator : string)
    (size i : nat) (elems : list cmXCodeObject) : string :=
  match elems with
  | [] => EmptyString
  | e :: rest =>
      (if decide (TypeValue e = STRING) then
         PrintString_of e +:+
         (if i + 1 <? size then "," else EmptyString)
       else
         Indent ((level + 1) * factor) +:+ Id e +:+ PrintComment e +:+
         "," +:+ separator)
      +:+ list_loop level factor separator size (S i) rest
  end.

(** [void cmXCodeObject::PrintAttribute(out, level, separator, factor,
    name, object, parent)].  [None]: a null pointer is dereferenced. *)
Fixpoint PrintAttribute (level : nat) (separator : string) (factor : nat)
    (name : string) (object parent : cmXCodeObject) {struct object}
    : option string :=
  let indent := Indent (level * factor) in
  match TypeValue object with
  | OBJECT_LIST =>
      Some (indent +:+ name +:+ " = (" +:+
            (if decide (TypeValue parent <> ATTRIBUTE_GROUP)
             then separator else EmptyString) +:+
            list_loop level factor separator (length (List_ object)) 0
              (List_ object) +:+
            (if decide (TypeValue parent <> ATTRIBUTE_GROUP)
             then Indent (level * factor) else EmptyString) +:+
            ");" +:+ separator)
  | ATTRIBUTE_GROUP =>
      body ←
        (fix attributes (l : list (string * option cmXCodeObject))
           : option string :=
           match l with
           | [] => Some EmptyString
           | (key, value) :: rest =>
               child ← value;
               first ← PrintAttribute ((level + 1) * factor) separator
                         factor key child object;
               others ← attributes rest;
               Some (first +:+ others)
           end) (ObjectAttributes object);
      Some (indent +:+ name +:+ " = {" +:+
            (if String.eqb separator nl then separator else EmptyString)
            +:+ body +:+ Indent (level * factor) +:+ "};" +:+ separator)
  | OBJECT_REF =>
      target ← Object object;
      Some (indent +:+ PrintString name +:+ " = " +:+ Id target +:+
            (if HasComment target
                && negb (String.eqb name "remoteGlobalIDString")
             then PrintComment target else EmptyString) +:+
            ";" +:+ separator)
  | STRING =>
      Some (indent +:+ PrintString name +:+ " = " +:+
            PrintString_of object +:+ ";" +:+ separator)
  | OBJECT => Some indent
  end.

(** The attribute loop of a node, as [PrintAttribute] and [Print] run
    it: [skip_isa] is set for the loop of [Print]. *)
Fixpoint attribute_loop (skip_isa : bool) (level : nat)
    (separator : string) (factor : nat) (parent : cmXCodeObject)
    (l : list (string * option cmXCodeObject)) : option string :=
  match l with
  | [] => Some EmptyString
  | (key, value) :: rest =>
      if skip_isa && String.eqb key "isa" then
        attribute_loop skip_isa level separator factor parent rest
      else
        child ← value;
        first ← PrintAttribute level separator factor key child parent;
        others ← attribute_loop skip_isa level separator factor parent rest;
        Some (first +:+ others)
  end.

(** The layout chosen by [Print]: [(separator, indentFactor)] after the
    test on [Version] and [IsA]. *)
Definition Print_layout (this : cmXCodeObject) : string * nat :=
  if bool_decide (15 < Version this)%Z
     && (bool_decide (IsA this = PBXFileReference)
         || bool_decide (IsA this = PBXBuildFile))
  then (" ", 0)
  else (nl, 1).

(** [void cmXCodeObject::Print(std::ostream& out)]. *)
Definition Print (this : cmXCodeObject) : option string :=
  let first_indent := Indent (2 * 1) in
  let '(separator, indentFactor) := Print_layout this in
  attributes ← attribute_loop true 3 separator indentFactor this
                 (ObjectAttributes this);
  Some (first_indent +:+ Id this +:+ PrintComment this +:+ " = {" +:+
        (if String.eqb separator nl then separator else EmptyString) +:+
        Indent (3 * indentFactor) +:+
        "isa = " +:+ PBXTypeName (IsA this) +:+ ";" +:+ separator +:+
        attributes +:+
        Indent (2 * indentFactor) +:+ "};" +:+ nl).

(** [void cmXCodeObject::PrintList(objs, out)]. *)
Fixpoint PrintList_loop (objs : list cmXCodeObject) : option string :=
  match objs with
  | [] => Some EmptyString
  | obj :: rest =>
      first ← (if decide (TypeValue obj = OBJECT) then Print obj
               else Some EmptyString);
      others ← PrintList_loop rest;
      Some (first +:+ others)
  end.

Definition PrintList (objs : list cmXCodeObject) : option string :=
  body ← PrintList_loop objs;
  Some (Indent 1 +:+ "objects = {" +:+ nl +:+ body +:+
        Indent 1 +:+ "};" +:+ nl).

End Serializer.

End Serial.
Import Serial.

(** Modelled from the spec: [HasComment] and [PrintComment] as the output
    grammar of the specification has them, an object's identifier being
    followed by its comment between comment marks when it has one.  The
    theorems about the serializer hold for any pair of functions; this
    pair serves to evaluate the serializer on concrete nodes. *)
Definition comment_present (o : cmXCodeObject) : bool :=
  negb (Str.empty (Comment o)).

Definition comment_text (o : cmXCodeObject) : string :=
  if Str.empty (Comment o) then EmptyString
  else " /* " +:+ Comment o +:+ " */".

(** Nodes for the examples: a node of a given kind with everything else
    unset, as the constructor leaves it for a kind other than [OBJECT]. *)
Definition blank_node (type : Type_) : cmXCodeObject :=
  {| Version := 15; Target := None; Object := None; IsA := PBXNone;
     Id := Str.substr0 24 temporary_id; TypeValue := type;
     Comment := EmptyString; ObjectAttributes := []; List_ := [];
     String_ := EmptyString |}.

Definition string_node (s : string) : cmXCodeObject :=
  SetString (blank_node STRING) s.

Definition object_node (ptype : PBXType) (version : Z) (id comment : string)
    (attrs : list (string * option cmXCodeObject)) : cmXCodeObject :=
  {| Version := version; Target := None; Object := None; IsA := ptype;
     Id := id; TypeValue := OBJECT; Comment := comment;
     ObjectAttributes := ("isa", None) :: attrs; List_ := [];
     String_ := EmptyString |}.

Definition list_node (elems : list cmXCodeObject) : cmXCodeObject :=
  {| Version := 15; Target := None; Object := None; IsA := PBXNone;
     Id := Str.substr0 24 temporary_id; TypeValue := OBJECT_LIST;
     Comment := EmptyString; ObjectAttributes := []; List_ := elems;
     String_ := EmptyString |}.

Definition group_node (attrs : list (string * option cmXCodeObject))
    : cmXCodeObject :=
  {| Version := 15; Target := None; Object := None; IsA := PBXNone;
     Id := Str.substr0 24 temporary_id; TypeValue := ATTRIBUTE_GROUP;
     Comment := EmptyString; ObjectAttributes := attrs; List_ := [];
     String_ := EmptyString |}.

Definition ref_node (target : cmXCodeObject) : cmXCodeObject :=
  {| Version := 15; Target := None; Object := Some target; IsA := PBXNone;
     Id := Str.substr0 24 temporary_id; TypeValue := OBJECT_REF;
     Comment := EmptyString; ObjectAttributes := []; List_ := [];
     String_ := EmptyString |}.

(* ===================================================================== *)
(** * cmCPackNSISGenerator *)
(* ===================================================================== *)

Module NSIS.

(** What the generator can change outside itself: the two standard
    streams, the files it writes, and the options it sets. *)
Record World : Type := mk_World {
  cout    : string;
  cerr    : string;
  files   : gmap string string;
  options : gmap string string
}.

Definition World_init : World :=
  {| cout := EmptyString; cerr := EmptyString; files := ∅; options := ∅ |}.

(** [std::cout << text << std::endl]. *)
Definition cout_line (text : string) (w : World) : World :=
  {| cout := cout w +:+ text +:+ nl; cerr := cerr w;
     files := files w; options := options w |}.

(** [std::cerr << text << std::endl]. *)
Definition cerr_line (text : string) (w : World) : World :=
  {| cout := cout w; cerr := cerr w +:+ text +:+ nl;
     files := files w; options := options w |}.

(** A [cmGeneratedFileStream] opened on [path], written and closed. *)
Definition write_file (path content : string) (w : World) : World :=
  {| cout := cout w; cerr := cerr w;
     files := <[path := content]> (files w); options := options w |}.

(** [this->SetOption(name, value)]. *)
Definition SetOption (name value : string) (w : World) : World :=
  {| cout := cout w; cerr := cerr w;
     files := files w; options := <[name := value]> (options w) |}.

Section Generator.

(** The collaborators, none of them among the sources:
    [FindTemplate], [GetOption] and [ConfigureFile] of the generic
    generator, [cmSystemTools::RunSingleCommand] (the command and the
    initial value of [retVal] to the result, the captured output and
    the final [retVal]), [cmsys::SystemTools::ReadRegistryValue],
    [cmSystemTools::FindProgram] and the superclass's [Initialize].
    [GetOption] hands back a [const char*], as [SetOption] takes one:
    what is made of its result ends at the first NUL byte. *)
Context (FindTemplate : string -> string).
Context (GetOption : string -> string).
Context (ConfigureFile : string -> string -> World -> World).
Context (RunSingleCommand : string -> Z -> bool * string * Z).
Context (ReadRegistryValue : string -> option string).
Context (FindProgram : string -> list string -> string).
Context (Superclass_Initialize : string -> World -> Z * World).

(** [tmpFile], [nsisFileName] and [nsisCmd] of [CompressFiles]. *)
Definition tmpFile : string :=
  Str.c_str (GetOption "CPACK_TOPLEVEL_DIRECTORY") +:+ "/NSISOutput.log".
Definition nsisFileName : string :=
  Str.c_str (GetOption "CPACK_TOPLEVEL_DIRECTORY") +:+ "/project.nsi".
Definition nsisCmd : string :=
  Str.chr Str.dquote +:+ Str.c_str (GetOption "CPACK_INSTALLER_PROGRAM") +:+
  Str.chr Str.dquote +:+ " " +:+ Str.chr Str.dquote +:+ nsisFileName +:+
  Str.chr Str.dquote.

(** The text written to the log file: [nsisCmd.c_str()] and
    [output.c_str()] between the fixed texts. *)
Definition log_content (output : string) : string :=
  "# Run command: " +:+ Str.c_str nsisCmd +:+ nl +:+
  "# Output:" +:+ nl +:+ Str.c_str output +:+ nl.

(** [int cmCPackNSISGenerator::CompressFiles(outFileName, toplevel,
    files)]; the three arguments are unused. *)
Definition CompressFiles (w : World) : Z * World :=
  let nsisInFileName := FindTemplate "NSIS.template.in" in
  if String.length nsisInFileName =? 0 then
    (0%Z,
     cerr_line "CPack error: Could not find NSIS installer template file."
       w)
  else
    let w := cout_line ("Configure file: " +:+ nsisInFileName +:+ " to "
                        +:+ nsisFileName) w in
    let w := ConfigureFile (Str.c_str nsisInFileName)
               (Str.c_str nsisFileName) w in
    let w := cout_line ("Execute: " +:+ Str.c_str nsisCmd) w in
    let '(res, output, retVal) :=
      RunSingleCommand (Str.c_str nsisCmd) 1%Z in
    if negb res || negb (retVal =? 0)%Z then
      let w := write_file (Str.c_str tmpFile) (log_content output) w in
      let w := cerr_line ("Problem running NSIS command: "
                          +:+ Str.c_str nsisCmd) w in
      let w := cerr_line ("Please check " +:+ Str.c_str tmpFile
                          +:+ " for errors") w in
      (0%Z, w)
    else (1%Z, w).

(** The world of [CompressFiles] at the moment the installer compiler
    has run: the two lines on [std::cout] and the configured file. *)
Definition world_after_run (w : World) : World :=
  cout_line ("Execute: " +:+ Str.c_str nsisCmd)
    (ConfigureFile (Str.c_str (FindTemplate "NSIS.template.in"))
       (Str.c_str nsisFileName)
       (cout_line ("Configure file: " +:+ FindTemplate "NSIS.template.in"
                   +:+ " to " +:+ nsisFileName) w)).

(** [int cmCPackNSISGenerator::Initialize(const char* name)]. *)
Definition Initialize (name : string) (w : World) : Z * World :=
  let w := cout_line "cmCPackNSISGenerator::Initialize()" w in
  let '(res, w) := Superclass_Initialize name w in
  match ReadRegistryValue "HKEY_LOCAL_MACHINE\SOFTWARE\NSIS" with
  | None => (0%Z, cerr_line "Cannot find NSIS registry value" w)
  | Some nsisPath =>
      let path := [nsisPath] in
      let nsisPath := FindProgram "makensis" path in
      if Str.empty nsisPath then
        (0%Z, cerr_line "Cannot find NSIS compiler" w)
      else
        (res, SetOption "CPACK_INSTALLER_PROGRAM" (Str.c_str nsisPath) w)
  end.

End Generator.

(** Collaborators for evaluating the generator: a package directory, a
    template lookup that finds the template and one that does not, a
    [ConfigureFile] that writes the output file, an installer compiler
    that ends with code 1, a registry without the NSIS key and a
    superclass initialisation that succeeds. *)
Definition example_options (name : string) : string :=
  if String.eqb name "CPACK_TOPLEVEL_DIRECTORY" then "/tmp/pkg"
  else if String.eqb name "CPACK_INSTALLER_PROGRAM" then "C:/NSIS/makensis.exe"
  else EmptyString.

Definition example_template_found (name : string) : string :=
  "/usr/share/cmake/" +:+ name.

Definition example_template_missing (name : string) : string := EmptyString.

Definition example_configure (input output : string) (w : World) : World :=
  write_file output ("; configured from " +:+ input) w.

Definition example_run_exit_1 (command : string) (retVal : Z)
    : bool * string * Z :=
  (true, "Error: cannot open script", 1%Z).

(** An installer compiler whose output has a NUL byte in it. *)
Definition example_run_nul_output (command : string) (retVal : Z)
    : bool * string * Z :=
  (true, "abc" +:+ Str.chr Str.nul +:+ "def", 1%Z).

Definition example_registry_empty (key : string) : option string := None.

Definition example_find_program (name : string) (path : list string)
    : string := EmptyString.

Definition example_superclass_initialize (name : string) (w : World)
    : Z * World := (1%Z, w).

End NSIS.

(* ===================================================================== *)
(** * The specification's vocabulary *)
(* ===================================================================== *)

(** The unquoted alphabet as the specification lists it: A-Z, a-z, 0-9
    and the four characters dollar, underscore, dot and slash. *)
Definition spec_unquoted_char (c : ascii) : bool :=
  let n := N_of_ascii c in
  ((65 <=? n) && (n <=? 90) || (97 <=? n) && (n <=? 122)
   || (48 <=? n) && (n <=? 57)
   || (n =? 36) || (n =? 95) || (n =? 46) || (n =? 47))%N.

(** The specification's condition for wrapping a string in quotes. *)
Definition spec_must_quote (s : string) : Prop :=
  s = EmptyString \/ Str.contains "//" s \/
  exists c, In c (Str.chars s) /\ spec_unquoted_char c = false.

(** The specification's escaping: a backslash before every double quote
    and every backslash, every other character unchanged. *)
Definition spec_escape_char (c : ascii) : string :=
  if decide (c = Str.dquote \/ c = Str.backslash)
  then String Str.backslash (Str.chr c)
  else Str.chr c.

Definition spec_escaped (s : string) : string :=
  Str.cat (map spec_escape_char (Str.chars s)).

(** Two lower-case hexadecimal digits for a byte, high nibble first. *)
Definition spec_hex_byte (b : Byte.byte) : string :=
  String (Num.digit_char (Byte.to_N b / 16))
    (String (Num.digit_char (Byte.to_N b mod 16)) EmptyString).

(** The hexadecimal encoding of a byte string. *)
Definition spec_hex_encode (bytes : list Byte.byte) : string :=
  Str.cat (map spec_hex_byte bytes).

(** The characters 0-9 and a-f. *)
Definition spec_lower_hex (c : ascii) : bool :=
  let n := N_of_ascii c in
  ((48 <=? n) && (n <=? 57) || (97 <=? n) && (n <=? 102))%N.

(** The decimal digits. *)
Definition spec_decimal_digit (c : ascii) : bool :=
  let n := N_of_ascii c in ((48 <=? n) && (n <=? 57))%N.

(** The number that a string of decimal digits denotes, continuing from
    the value [acc] of the digits already read. *)
Fixpoint spec_decimal_value_from (acc : N) (s : string) : N :=
  match s with
  | EmptyString => acc
  | String c s' =>
      spec_decimal_value_from (acc * 10 + (N_of_ascii c - 48))%N s'
  end.

Definition spec_decimal_value (s : string) : N :=
  spec_decimal_value_from 0 s.

(** The strings of a list with a comma between neighbours. *)
Fixpoint spec_comma_separated (l : list string) : string :=
  match l with
  | [] => EmptyString
  | [s] => s
  | s :: l' => s +:+ "," +:+ spec_comma_separated l'
  end.

(** The rendering of one element of a list, given whether it is the last
    one: a String element is its quoted literal, followed by a comma
    unless it is the last; any other element is indented one level below
    the attribute and followed by a comma and the separator. *)
Definition spec_list_element (PrintComment : cmXCodeObject -> string)
    (level factor : nat) (separator : string) (last : bool)
    (e : cmXCodeObject) : string :=
  if decide (TypeValue e = STRING) then
    PrintString_of e +:+ (if last then EmptyString else ",")
  else
    Indent ((level + 1) * factor) +:+ Id e +:+ PrintComment e +:+ "," +:+
    separator.

Fixpoint spec_list_elements (PrintComment : cmXCodeObject -> string)
    (level factor : nat) (separator : string) (l : list cmXCodeObject)
    : string :=
  match l with
  | [] => EmptyString
  | e :: rest =>
      spec_list_element PrintComment level factor separator
        (bool_decide (rest = [])) e
      +:+ spec_list_elements PrintComment level factor separator rest
  end.

(** The text of an element that is not a String: indentation one level
    below the attribute, identifier, comment, comma, separator.  With the
    newline as separator it is a line. *)
Definition spec_list_line (PrintComment : cmXCodeObject -> string)
    (level factor : nat) (separator : string) (e : cmXCodeObject)
    : string :=
  Indent ((level + 1) * factor) +:+ Id e +:+ PrintComment e +:+ "," +:+
  separator.

(** Neither a tab nor a newline: a character that is not layout. *)
Definition spec_not_layout (c : ascii) : bool :=
  negb (Ascii.eqb c Str.tab) && negb (Ascii.eqb c Str.newline).

(** The separator character that identifiers must not contain. *)
Definition spec_not_separator (c : ascii) : bool :=
  negb (Ascii.eqb c Str.hyphen).

(** A list of identifiers is strictly increasing, in the order of
    [std::string]'s [operator<]. *)
Definition spec_increasing (ids : list string) : Prop :=
  forall i j a b,
    i < j -> ids !! i = Some a -> ids !! j = Some b ->
    String.compare a b = Lt.

(** Reading a literal back.  [spec_unescape] reads the inside of a quoted
    literal up to the closing quote, which must end the text: a backslash
    makes the next character ordinary.  [spec_read_literal] reads a
    quoted literal, or takes a text that does not open with a quote as it
    stands. *)
Fixpoint spec_unescape (s : string) : option string :=
  match s with
  | EmptyString => None
  | String c rest =>
      if Ascii.eqb c Str.dquote then
        (if Str.empty rest then Some EmptyString else None)
      else if Ascii.eqb c Str.backslash then
        match rest with
        | EmptyString => None
        | String d rest' => String d <$> spec_unescape rest'
        end
      else String c <$> spec_unescape rest
  end.

Definition spec_read_literal (text : string) : option string :=
  match text with
  | EmptyString => None
  | String c rest =>
      if Ascii.eqb c Str.dquote then spec_unescape rest else Some text
  end.

(** An attribute value in which [PrintAttribute] meets no null pointer:
    every reference has its link set and every entry of every group,
    at any depth, is bound to a node.  The elements of a list are nodes
    in this embedding, so that a list is always well linked. *)
Fixpoint well_linked (object : cmXCodeObject) : bool :=
  match TypeValue object with
  | ATTRIBUTE_GROUP =>
      (fix children (l : list (string * option cmXCodeObject)) : bool :=
         match l with
         | [] => true
         | (_, value) :: rest =>
             match value with
             | Some child => well_linked child
             | None => false
             end && children rest
         end) (ObjectAttributes object)
  | OBJECT_REF =>
      match Object object with Some _ => true | None => false end
  | _ => true
  end.

(** The same for the entries of an attribute map. *)
Definition entries_linked (l : list (string * option cmXCodeObject)) : bool :=
  forallb (fun kv => match kv.2 with
                     | Some child => well_linked child
                     | None => false
                     end) l.

(** A text without tab and newline. *)
Definition spec_layout_free (s : string) : bool := Str.all spec_not_layout s.

(** An attribute value all of whose texts are without tab and newline:
    the strings, the names of the entries of groups, and the identifiers
    and comments of the elements of lists and of the targets of
    references. *)
Fixpoint value_layout_free (PrintComment : cmXCodeObject -> string)
    (object : cmXCodeObject) : bool :=
  match TypeValue object with
  | OBJECT_LIST =>
      forallb (fun e => if decide (TypeValue e = STRING)
                        then spec_layout_free (String_ e)
                        else spec_layout_free (Id e)
                             && spec_layout_free (PrintComment e))
              (List_ object)
  | ATTRIBUTE_GROUP =>
      (fix children (l : list (string * option cmXCodeObject)) : bool :=
         match l with
         | [] => true
         | (key, value) :: rest =>
             spec_layout_free key
             && match value with
                | Some child => value_layout_free PrintComment child
                | None => true
                end
             && children rest
         end) (ObjectAttributes object)
  | OBJECT_REF =>
      match Object object with
      | Some target => spec_layout_free (Id target)
                       && spec_layout_free (PrintComment target)
      | None => true
      end
  | STRING => spec_layout_free (String_ object)
  | OBJECT => true
  end.

(** The same for the entries of an attribute map. *)
Definition entries_layout_free (PrintComment : cmXCodeObject -> string)
    (l : list (string * option cmXCodeObject)) : bool :=
  forallb (fun kv => spec_layout_free kv.1
                     && match kv.2 with
                        | Some child => value_layout_free PrintComment child
                        | None => true
                        end) l.

(** The entries of an attribute map that [Print] prints: all but those
    named isa. *)
Definition printed_entries (l : list (string * option cmXCodeObject))
    : list (string * option cmXCodeObject) :=
  filter (fun kv => kv.1 <> "isa") l.

(* ===================================================================== *)
(** * Facts about strings *)
(* ===================================================================== *)

Module StrFacts.
Import Str.

Lemma append_nil_r (s : string) : s +:+ EmptyString = s.
Proof. induction s as [|c s IH]; simpl; [reflexivity | now rewrite IH]. Qed.

Lemma append_assoc (a b c : string) : (a +:+ b) +:+ c = a +:+ (b +:+ c).
Proof. induction a as [|x a IH]; simpl; [reflexivity | now rewrite IH]. Qed.

Lemma length_append (a b : string) :
  String.length (a +:+ b) = String.length a + String.length b.
Proof. induction a as [|x a IH]; simpl; [reflexivity | now rewrite IH]. Qed.

Lemma length_replicate (n : nat) (c : ascii) :
  String.length (replicate n c) = n.
Proof. induction n as [|n IH]; simpl; [reflexivity | now rewrite IH]. Qed.

Lemma length_zero (s : string) : String.length s = 0 -> s = EmptyString.
Proof. destruct s; [reflexivity | discriminate]. Qed.

Lemma chars_append (a b : string) : chars (a +:+ b) = chars a ++ chars b.
Proof.
  unfold chars. induction a as [|x a IH]; simpl; [reflexivity | now rewrite IH].
Qed.

Lemma starts_with_append (p b : string) : starts_with p (p +:+ b) = true.
Proof.
  induction p as [|x p IH]; simpl; [reflexivity |].
  now rewrite Ascii.eqb_refl, IH.
Qed.

Lemma starts_with_inv (p s : string) :
  starts_with p s = true -> exists b, s = p +:+ b.
Proof.
  revert s. induction p as [|x p IH]; intros s H.
  - now exists s.
  - destruct s as [|y s]; simpl in H; [discriminate |].
    apply andb_true_iff in H as [Hxy Hps].
    apply Ascii.eqb_eq in Hxy as ->.
    destruct (IH _ Hps) as [b ->]. now exists b.
Qed.

(** [find] answers [npos] exactly on the strings without an occurrence. *)
Lemma find_contains (pat s : string) : find pat s <> None <-> contains pat s.
Proof.
  split.
  - induction s as [|c s IH]; simpl.
    + destruct (starts_with pat EmptyString) eqn:E; [|congruence].
      intros _. destruct (starts_with_inv _ _ E) as [b Hb].
      exists EmptyString, b. exact Hb.
    + destruct (starts_with pat (String c s)) eqn:E.
      * intros _. destruct (starts_with_inv _ _ E) as [b Hb].
        exists EmptyString, b. exact Hb.
      * intros H. destruct (find pat s) eqn:F; [|simpl in H; congruence].
        destruct IH as (a & b & ->); [congruence |].
        now exists (String c a), b.
  - intros (a & b & ->). induction a as [|c a IH].
    + simpl. destruct pat; simpl.
      * destruct b; simpl; congruence.
      * rewrite Ascii.eqb_refl, starts_with_append. simpl. congruence.
    + change (String c a +:+ pat +:+ b) with (String c (a +:+ pat +:+ b)).
      simpl. destruct (starts_with pat _); [congruence |].
      destruct (find pat (a +:+ pat +:+ b)); simpl; congruence.
Qed.

Lemma mem_In (c : ascii) (set : string) :
  mem c set = true <-> In c (chars set).
Proof.
  unfold chars. induction set as [|d set IH]; simpl.
  - split; [discriminate | tauto].
  - rewrite orb_true_iff, IH, Ascii.eqb_eq. intuition congruence.
Qed.

(** [find_first_not_of] answers [npos] exactly on the strings all of whose
    characters are in the set. *)
Lemma find_first_not_of_spec (set s : string) :
  find_first_not_of set s <> None <->
  exists c, In c (chars s) /\ mem c set = false.
Proof.
  unfold chars. induction s as [|c s IH]; simpl.
  - split; [congruence | intros (c & [] & _)].
  - destruct (mem c set) eqn:M.
    + split.
      * intros H. destruct (find_first_not_of set s); [|simpl in H; congruence].
        destruct IH as [IH _]. destruct IH as (d & Hd & Md); [congruence |].
        exists d. tauto.
      * intros (d & [-> | Hd] & Md); [congruence |].
        destruct IH as [_ IH].
        destruct (find_first_not_of set s); simpl; [congruence |].
        apply IH. now exists d.
    + split; [| congruence]. intros _. exists c. tauto.
Qed.

Lemma cat_app (l1 l2 : list string) : cat (l1 ++ l2) = cat l1 +:+ cat l2.
Proof.
  induction l1 as [|s l1 IH]; simpl; [reflexivity |].
  now rewrite IH, append_assoc.
Qed.

Lemma all_append (p : ascii -> bool) (a b : string) :
  all p (a +:+ b) = all p a && all p b.
Proof.
  induction a as [|c a IH]; simpl; [reflexivity |].
  now rewrite IH, andb_assoc.
Qed.

Lemma all_impl (p q : ascii -> bool) (s : string) :
  (forall c, p c = true -> q c = true) -> all p s = true -> all q s = true.
Proof.
  intros Hpq. induction s as [|c s IH]; simpl; [reflexivity |].
  rewrite !andb_true_iff. intros [Hc Hs]. auto.
Qed.

Lemma all_replicate (p : ascii -> bool) (n : nat) (c : ascii) :
  p c = true -> all p (replicate n c) = true.
Proof. intros Hc. induction n as [|n IH]; simpl; [reflexivity | now rewrite Hc]. Qed.

Lemma all_substr0 (p : ascii -> bool) (n : nat) (s : string) :
  all p s = true -> all p (substr0 n s) = true.
Proof.
  unfold substr0. revert n. induction s as [|c s IH]; intros [|n]; simpl;
    try reflexivity.
  rewrite !andb_true_iff. intros [Hc Hs]. auto.
Qed.

Lemma length_substr0 (n : nat) (s : string) :
  String.length (substr0 n s) = Nat.min n (String.length s).
Proof.
  unfold substr0. revert n. induction s as [|c s IH]; intros [|n]; simpl;
    try reflexivity.
  now rewrite IH.
Qed.

Lemma substr0_all (n : nat) (s : string) :
  String.length s <= n -> substr0 n s = s.
Proof.
  unfold substr0. revert n. induction s as [|c s IH]; intros [|n] H; simpl in *;
    try reflexivity; [lia |].
  rewrite IH by lia. reflexivity.
Qed.

(** Erasing the character at position [n] does not change the first [n]
    characters. *)
Lemma substr0_erase_at (n : nat) (s : string) :
  substr0 n (erase_at n s) = substr0 n s.
Proof.
  unfold substr0. revert n. induction s as [|c s IH]; intros [|n]; simpl;
    try reflexivity.
  - now destruct s.
  - now rewrite IH.
Qed.

Lemma length_erase_at (i : nat) (s : string) :
  i < String.length s ->
  String.length (erase_at i s) = String.length s - 1.
Proof.
  revert i. induction s as [|c s IH]; intros [|i] H; simpl in *; try lia.
  rewrite IH by lia. lia.
Qed.

Lemma all_erase_at (p : ascii -> bool) (i : nat) (s : string) :
  all p s = true -> all p (erase_at i s) = true.
Proof.
  revert i. induction s as [|c s IH]; intros [|i]; simpl; try reflexivity;
    rewrite !andb_true_iff; intros [Hc Hs]; auto.
Qed.

(** [c_str] keeps a string without NUL byte as it is, and what it
    returns is without NUL byte and starts the string it was taken
    from. *)
Lemma c_str_id (s : string) : all not_nul s = true -> c_str s = s.
Proof.
  induction s as [|c s IH]; [reflexivity |].
  cbn [all c_str]. unfold not_nul at 1. rewrite andb_true_iff.
  intros [Hc Hs]. destruct (Ascii.eqb c nul); [discriminate |].
  now rewrite IH.
Qed.

Lemma c_str_not_nul (s : string) : all not_nul (c_str s) = true.
Proof.
  induction s as [|c s IH]; [reflexivity |].
  cbn [c_str]. destruct (Ascii.eqb c nul) eqn:E; [reflexivity |].
  cbn [all]. unfold not_nul at 1. now rewrite E, IH.
Qed.

Lemma c_str_idempotent (s : string) : c_str (c_str s) = c_str s.
Proof. apply c_str_id, c_str_not_nul. Qed.

Lemma c_str_prefix (s : string) : exists rest, s = c_str s +:+ rest.
Proof.
  induction s as [|c s [rest IH]]; [now exists EmptyString |].
  cbn [c_str]. destruct (Ascii.eqb c nul).
  - now exists (String c s).
  - exists rest. cbn [String.append]. now rewrite <- IH.
Qed.

Lemma c_str_append (a b : string) :
  all not_nul a = true -> c_str (a +:+ b) = a +:+ c_str b.
Proof.
  induction a as [|c a IH]; [reflexivity |].
  cbn [all c_str String.append]. unfold not_nul at 1.
  rewrite andb_true_iff. intros [Hc Ha].
  destruct (Ascii.eqb c nul); [discriminate |]. now rewrite IH.
Qed.

(** At a NUL byte [c_str] stops, and drops what follows. *)
Lemma c_str_stops (a b : string) :
  all not_nul a = true -> c_str (a +:+ String nul b) = a.
Proof.
  intros Ha. rewrite c_str_append by assumption.
  cbn [c_str]. now rewrite Ascii.eqb_refl, append_nil_r.
Qed.

End StrFacts.

(* ===================================================================== *)
(** * The quoting rule *)
(* ===================================================================== *)

Section Quoting.
Import Str StrFacts.

(** The literal alphabet of the source and the specification's listing
    of it are the same set of characters. *)
Lemma unquoted_alphabet_spec (c : ascii) :
  mem c unquoted_alphabet = spec_unquoted_char c.
Proof.
  destruct c as [[] [] [] [] [] [] [] []]; vm_compute; reflexivity.
Qed.

Lemma needQuote_spec (s : string) :
  needQuote s = true <-> spec_must_quote s.
Proof.
  unfold needQuote, spec_must_quote.
  rewrite !orb_true_iff, !bool_decide_eq_true.
  rewrite find_contains, find_first_not_of_spec.
  assert (empty s = true <-> s = EmptyString) as ->
    by (destruct s; simpl; split; congruence).
  setoid_rewrite unquoted_alphabet_spec. tauto.
Qed.

(** The loop escapes the way the specification says. *)
Lemma escape_loop_spec (s : string) : escape_loop s = spec_escaped s.
Proof.
  unfold spec_escaped, chars.
  induction s as [|c s IH]; simpl; [reflexivity |].
  rewrite IH. unfold spec_escape_char.
  destruct (decide _) as [[-> | ->] | Hn]; [reflexivity | reflexivity |].
  destruct (Ascii.eqb_spec c dquote); [tauto |].
  destruct (Ascii.eqb_spec c backslash); [tauto |]. reflexivity.
Qed.

(** A string over the unquoted alphabet has nothing to escape. *)
Lemma escape_loop_unquoted (s : string) :
  (forall c, In c (chars s) -> spec_unquoted_char c = true) ->
  escape_loop s = s.
Proof.
  unfold chars. induction s as [|c s IH]; simpl; intros H; [reflexivity |].
  rewrite IH by auto.
  assert (Hc : spec_unquoted_char c = true) by auto.
  destruct (Ascii.eqb_spec c dquote) as [-> | _]; [discriminate |].
  destruct (Ascii.eqb_spec c backslash) as [-> | _]; [discriminate |].
  reflexivity.
Qed.

(** C4.  [PrintString] wraps a string in double quotes exactly when the
    string is empty, contains two consecutive slashes, or has a character
    outside A-Z, a-z, 0-9, dollar, underscore, dot, slash.  A quoted
    string is written with a backslash before each of its double quotes
    and backslashes and its other characters unchanged; a string that
    needs no quotes is written verbatim. *)
Theorem PrintString_quoting_rule (s : string) :
  (spec_must_quote s /\
   PrintString s = chr dquote +:+ spec_escaped s +:+ chr dquote)
  \/
  (~ spec_must_quote s /\ PrintString s = s).
Proof.
  unfold PrintString. destruct (needQuote s) eqn:Q.
  - left. split; [now apply needQuote_spec |].
    now rewrite escape_loop_spec.
  - right.
    assert (Hn : ~ spec_must_quote s).
    { intros H. apply needQuote_spec in H. congruence. }
    split; [exact Hn |]. simpl. rewrite append_nil_r.
    apply escape_loop_unquoted. intros c Hc.
    destruct (spec_unquoted_char c) eqn:U; [reflexivity |].
    exfalso. apply Hn. right. right. now exists c.
Qed.

End Quoting.

(** The three examples of the specification. *)
Example quoting_he_said_hi :
  PrintString ("he said " +:+ Str.chr Str.dquote +:+ "hi" +:+
               Str.chr Str.dquote)
  = Str.chr Str.dquote +:+ "he said " +:+
    Str.chr Str.backslash +:+ Str.chr Str.dquote +:+ "hi" +:+
    Str.chr Str.backslash +:+ Str.chr Str.dquote +:+ Str.chr Str.dquote.
Proof. vm_compute. reflexivity. Qed.

Example quoting_empty :
  PrintString EmptyString = Str.chr Str.dquote +:+ Str.chr Str.dquote.
Proof. vm_compute. reflexivity. Qed.

Example quoting_path : PrintString "path/to/file.txt" = "path/to/file.txt".
Proof. vm_compute. reflexivity. Qed.

Example quoting_double_slash :
  PrintString "a//b" = Str.chr Str.dquote +:+ "a//b" +:+ Str.chr Str.dquote.
Proof. vm_compute. reflexivity. Qed.

(* ===================================================================== *)
(** * Facts about number rendering *)
(* ===================================================================== *)

Module NumFacts.
Import Str StrFacts Num.

Local Open Scope N_scope.

Lemma replicate_snoc (n : nat) (c : ascii) (s : string) :
  replicate n c +:+ String c s = String c (replicate n c +:+ s).
Proof. induction n as [|n IH]; simpl; [reflexivity | now rewrite IH]. Qed.

Lemma length_fixed_width (w : nat) (n : N) :
  String.length (fixed_width w n) = w.
Proof.
  revert n. induction w as [|w IH]; intros n; simpl; [reflexivity |].
  rewrite length_append, IH. simpl. lia.
Qed.

Lemma fixed_width_zero (w : nat) : fixed_width w 0 = replicate w "0"%char.
Proof.
  induction w as [|w IH]; [reflexivity |].
  simpl fixed_width. change (0 / 10) with 0. rewrite IH.
  change (chr (digit_char (0 mod 10))) with (String "0"%char EmptyString).
  now rewrite replicate_snoc, append_nil_r.
Qed.

Lemma div10_lt (n : N) (k : nat) :
  n < 10 ^ N.of_nat (S k) -> n / 10 < 10 ^ N.of_nat k.
Proof.
  intros Hn. rewrite Nat2N.inj_succ, N.pow_succ_r' in Hn.
  apply N.Div0.div_lt_upper_bound. lia.
Qed.

(** Widening a rendering pads it with zeros on the left. *)
Lemma fixed_width_widen (k j : nat) (n : N) :
  n < 10 ^ N.of_nat k ->
  fixed_width (j + k) n = replicate j "0"%char +:+ fixed_width k n.
Proof.
  revert n. induction k as [|k IH]; intros n Hn.
  - assert (n = 0) as -> by (simpl in Hn; lia).
    rewrite Nat.add_0_r, fixed_width_zero. simpl. now rewrite append_nil_r.
  - rewrite Nat.add_succ_r. simpl fixed_width.
    rewrite IH, append_assoc; [reflexivity |]. now apply div10_lt.
Qed.

(** The digit loop writes the digits of [n], as many as [n] has. *)
Lemma render_decimal (fuel : nat) (n : N) (acc : string) :
  (1 <= fuel)%nat -> n < 10 ^ N.of_nat fuel ->
  exists k : nat, (1 <= k <= fuel)%nat /\ n < 10 ^ N.of_nat k /\
    render 10 fuel n acc = fixed_width k n +:+ acc.
Proof.
  revert n acc. induction fuel as [|fuel IH]; intros n acc Hf Hn; [lia |].
  simpl render. destruct (N.eqb_spec (n / 10) 0) as [Hq | Hq].
  - exists 1%nat. split; [lia |]. split.
    + change (10 ^ N.of_nat 1) with 10.
      destruct (N.lt_ge_cases n 10) as [|Hge]; [assumption |].
      apply N.Div0.div_le_mono with (c := 10) in Hge.
      change (10 / 10) with 1 in Hge. lia.
    + reflexivity.
  - assert (Hq' : n / 10 < 10 ^ N.of_nat fuel) by now apply div10_lt.
    assert (Hf' : (1 <= fuel)%nat).
    { destruct fuel; [exfalso; apply Hq; now apply N.lt_1_r |].
      clear. lia. }
    destruct (IH (n / 10) (String (digit_char (n mod 10)) acc) Hf' Hq')
      as (k & Hk & Hlt & ->).
    exists (S k). split; [lia |]. split.
    + rewrite Nat2N.inj_succ, N.pow_succ_r'.
      pose proof (N.Div0.div_mod n 10). pose proof (N.mod_lt n 10). lia.
    + simpl fixed_width. now rewrite append_assoc.
Qed.

(** [std::to_string] of a [size_t] is the shortest of the fixed-width
    renderings that hold the number. *)
Lemma to_string_fixed_width (n : N) :
  n < size_t_modulus ->
  exists k : nat, (1 <= k <= 20)%nat /\ n < 10 ^ N.of_nat k /\
    to_string n = fixed_width k n.
Proof.
  intros Hn. unfold to_string.
  destruct (render_decimal 20 n EmptyString) as (k & Hk & Hlt & E); [lia | |].
  - unfold size_t_modulus in Hn. 
    assert (2 ^ 64 < 10 ^ N.of_nat 20) by (vm_compute; reflexivity). lia.
  - exists k. rewrite E, append_nil_r. auto.
Qed.

(** The padding loop, given enough iterations for the length it starts
    from, stops with the identifier padded to 22 characters. *)
Lemma pad_loop_replicate (fuel : nat) (id : string) :
  (22 - String.length id <= fuel)%nat ->
  pad_loop fuel id = replicate (22 - String.length id) "0"%char +:+ id.
Proof.
  revert id. induction fuel as [|fuel IH]; intros id Hf; simpl.
  - now replace (22 - String.length id)%nat with 0%nat by lia.
  - destruct (Nat.ltb_spec (String.length id) 22) as [Hlt | Hge].
    + rewrite IH by (simpl; lia). simpl String.length.
      replace (22 - String.length id)%nat
        with (S (22 - S (String.length id)))%nat by lia.
      simpl. now rewrite replicate_snoc.
    + now replace (22 - String.length id)%nat with 0%nat by lia.
Qed.

(** The sequential identifier body: [std::to_string] padded by the loop
    is the 22-digit rendering. *)
Lemma pad_loop_to_string (n : N) :
  n < size_t_modulus -> pad_loop 22 (to_string n) = fixed_width 22 n.
Proof.
  intros Hn. destruct (to_string_fixed_width n Hn) as (k & Hk & Hlt & ->).
  rewrite pad_loop_replicate by lia.
  rewrite length_fixed_width.
  rewrite <- fixed_width_widen by assumption.
  f_equal. lia.
Qed.

Lemma compare_append_same (p x y : string) :
  String.compare (p +:+ x) (p +:+ y) = String.compare x y.
Proof.
  induction p as [|c p IH]; simpl; [reflexivity |].
  unfold Ascii.compare. now rewrite N.compare_refl.
Qed.

Lemma compare_append_lt (a b x y : string) :
  String.length a = String.length b ->
  String.compare a b = Lt -> String.compare (a +:+ x) (b +:+ y) = Lt.
Proof.
  revert b. induction a as [|c a IH]; intros [|d b] Hlen Hlt;
    simpl in *; try discriminate.
  destruct (Ascii.compare c d); [apply IH; congruence | reflexivity |
                                  discriminate].
Qed.

Lemma digit_char_compare (d e : N) :
  d < e -> e < 10 -> Ascii.compare (digit_char d) (digit_char e) = Lt.
Proof.
  intros Hde He. unfold digit_char, Ascii.compare.
  destruct (N.ltb_spec d 10); [| lia].
  destruct (N.ltb_spec e 10); [| lia].
  rewrite !N_ascii_embedding by lia. apply N.compare_lt_iff. lia.
Qed.

(** Fixed-width decimal renderings are ordered as the numbers are. *)
Lemma fixed_width_compare (w : nat) (n m : N) :
  n < m -> m < 10 ^ N.of_nat w ->
  String.compare (fixed_width w n) (fixed_width w m) = Lt.
Proof.
  revert n m. induction w as [|w IH]; intros n m Hnm Hm.
  - change (10 ^ N.of_nat 0) with 1 in Hm. lia.
  - simpl fixed_width.
    assert (Hm' : m / 10 < 10 ^ N.of_nat w) by now apply div10_lt.
    pose proof (N.Div0.div_mod n 10) as En.
    pose proof (N.Div0.div_mod m 10) as Em.
    pose proof (N.mod_lt n 10 ltac:(lia)) as Ln.
    pose proof (N.mod_lt m 10 ltac:(lia)) as Lm.
    destruct (N.lt_trichotomy (n / 10) (m / 10)) as [Hlt | [Heq | Hgt]].
    + apply compare_append_lt.
      * now rewrite !length_fixed_width.
      * now apply IH.
    + rewrite Heq, compare_append_same. simpl.
      rewrite digit_char_compare; [reflexivity | | assumption].
      rewrite Heq in En. clear -En Em Hnm. 
      set (q := m / 10) in *. set (r := n mod 10) in *.
      set (r' := m mod 10) in *. clearbody q r r'. lia.
    + exfalso. clear -En Em Hnm Hgt Lm.
      set (q := m / 10) in *. set (q' := n / 10) in *.
      set (r := n mod 10) in *. set (r' := m mod 10) in *.
      clearbody q q' r r'. lia.
Qed.

Lemma digit_char_decimal (d : N) :
  d < 10 -> N_of_ascii (digit_char d) = 48 + d.
Proof.
  intros Hd. unfold digit_char. destruct (N.ltb_spec d 10); [| lia].
  apply N_ascii_embedding. lia.
Qed.

Lemma all_digits_fixed_width (w : nat) (n : N) :
  all spec_decimal_digit (fixed_width w n) = true.
Proof.
  revert n. induction w as [|w IH]; intros n; [reflexivity |].
  cbn [fixed_width]. rewrite all_append, IH. cbn [all chr andb].
  rewrite andb_true_r. unfold spec_decimal_digit.
  rewrite digit_char_decimal by (apply N.mod_lt; lia).
  pose proof (N.mod_lt n 10 ltac:(lia)) as L.
  set (r := n mod 10) in *. clearbody r.
  apply andb_true_intro. split; apply N.leb_le; lia.
Qed.

Lemma decimal_value_from_append (a b : string) (acc : N) :
  spec_decimal_value_from acc (a +:+ b)
  = spec_decimal_value_from (spec_decimal_value_from acc a) b.
Proof.
  revert acc. induction a as [|c a IH]; intros acc; simpl; [reflexivity |].
  now rewrite IH.
Qed.

(** A fixed-width rendering denotes the number it renders. *)
Lemma decimal_value_fixed_width (w : nat) (n : N) :
  n < 10 ^ N.of_nat w -> spec_decimal_value (fixed_width w n) = n.
Proof.
  unfold spec_decimal_value. revert n.
  induction w as [|w IH]; intros n Hn.
  - change (10 ^ N.of_nat 0) with 1 in Hn. simpl. lia.
  - cbn [fixed_width]. rewrite decimal_value_from_append, IH
      by now apply div10_lt.
    cbn [spec_decimal_value_from chr].
    rewrite digit_char_decimal by (apply N.mod_lt; lia).
    pose proof (N.Div0.div_mod n 10) as E.
    set (q := n / 10) in *. set (r := n mod 10) in *. clearbody q r. lia.
Qed.

Lemma count_from_lookup (start : N) (len i : nat) (x : N) :
  count_from start len !! i = Some x -> x = start + N.of_nat i.
Proof.
  revert start i. induction len as [|len IH]; intros start [|i] H;
    simpl in H; try discriminate.
  - injection H as <-. lia.
  - apply IH in H. lia.
Qed.

Lemma length_count_from (start : N) (len : nat) :
  length (count_from start len) = len.
Proof.
  revert start. induction len as [|len IH]; intros start; simpl;
    [reflexivity | now rewrite IH].
Qed.

End NumFacts.

(* ===================================================================== *)
(** * The identifier generator: content-derived identifiers *)
(* ===================================================================== *)

Module IdFacts.
Import Str StrFacts Num NumFacts.

Lemma not_separator_of_hex (c : ascii) :
  spec_lower_hex c = true -> spec_not_separator c = true.
Proof.
  unfold spec_not_separator. destruct (Ascii.eqb_spec c hyphen) as [-> | _];
    [discriminate | reflexivity].
Qed.

Lemma not_separator_of_digit (c : ascii) :
  spec_decimal_digit c = true -> spec_not_separator c = true.
Proof.
  unfold spec_not_separator. destruct (Ascii.eqb_spec c hyphen) as [-> | _];
    [discriminate | reflexivity].
Qed.

Lemma ReplaceString_from_hyphen (c : ascii) (s : string) :
  ReplaceString_from 0 (String c s) "-" EmptyString =
  if Ascii.eqb hyphen c then ReplaceString_from 0 s "-" EmptyString
  else String c (ReplaceString_from 0 s "-" EmptyString).
Proof.
  cbn [ReplaceString_from starts_with]. rewrite andb_true_r.
  change "-"%char with hyphen. destruct (Ascii.eqb hyphen c); reflexivity.
Qed.

(** Replacing the hyphens of a string without hyphens changes nothing. *)
Lemma ReplaceString_hyphen_free (s : string) :
  all spec_not_separator s = true -> ReplaceString s "-" EmptyString = s.
Proof.
  unfold ReplaceString. cbn [empty].
  induction s as [|c s IH]; [reflexivity |].
  rewrite ReplaceString_from_hyphen. cbn [all].
  rewrite andb_true_iff. intros [Hc Hs]. unfold spec_not_separator in Hc.
  rewrite Ascii.eqb_sym in Hc.
  destruct (Ascii.eqb hyphen c); [discriminate |]. now rewrite IH.
Qed.

(** Whatever the string, no hyphen is left after the replacement. *)
Lemma ReplaceString_hyphen_gone (s : string) :
  all spec_not_separator (ReplaceString s "-" EmptyString) = true.
Proof.
  unfold ReplaceString. cbn [empty].
  induction s as [|c s IH]; [reflexivity |].
  rewrite ReplaceString_from_hyphen.
  destruct (Ascii.eqb hyphen c) eqn:E; [exact IH |].
  cbn [all]. rewrite IH, andb_true_r. unfold spec_not_separator.
  now rewrite Ascii.eqb_sym, E.
Qed.

(** What the stream manipulators write for a byte. *)
Lemma hex_byte_spec (b : Byte.byte) :
  setw_setfill 2 "0"%char (hex (Byte.to_N b)) = spec_hex_byte b.
Proof. destruct b; vm_compute; reflexivity. Qed.

Lemma spec_hex_byte_lower (b : Byte.byte) :
  all spec_lower_hex (spec_hex_byte b) = true.
Proof. destruct b; vm_compute; reflexivity. Qed.

Lemma length_spec_hex_encode (bytes : list Byte.byte) :
  String.length (spec_hex_encode bytes) = 2 * length bytes.
Proof.
  unfold spec_hex_encode.
  induction bytes as [|b bytes IH]; simpl in *; [reflexivity |].
  rewrite IH. lia.
Qed.

Lemma all_spec_hex_encode (bytes : list Byte.byte) :
  all spec_lower_hex (spec_hex_encode bytes) = true.
Proof.
  unfold spec_hex_encode.
  induction bytes as [|b bytes IH]; [reflexivity |].
  cbn [cat map]. now rewrite all_append, spec_hex_byte_lower, IH.
Qed.

(** The first [2 * n] characters of an encoding encode the first [n]
    bytes. *)
Lemma spec_hex_encode_take (n : nat) (bytes : list Byte.byte) :
  substr0 (2 * n) (spec_hex_encode bytes) = spec_hex_encode (take n bytes).
Proof.
  unfold spec_hex_encode, substr0.
  revert bytes. induction n as [|n IH]; intros [|b bytes]; try reflexivity.
  replace (2 * S n) with (S (S (2 * n))) by lia.
  simpl. now rewrite IH.
Qed.

Lemma substr0_append_l (a b : string) (n : nat) :
  substr0 (String.length a + n) (a +:+ b) = a +:+ substr0 n b.
Proof.
  unfold substr0. induction a as [|c a IH]; simpl; [reflexivity |].
  now rewrite IH.
Qed.

Lemma substr0_substr0 (n m : nat) (s : string) :
  n <= m -> substr0 n (substr0 m s) = substr0 n s.
Proof.
  unfold substr0. revert n m.
  induction s as [|c s IH]; intros [|n] [|m] H; simpl; try reflexivity;
    try lia.
  rewrite IH by lia. reflexivity.
Qed.

Section Digest.
Context (CC_SHA256 : string -> list Byte.byte).

Local Abbreviation computed_id := (computed_id CC_SHA256).
Local Abbreviation cmGetUniqueXcodeId := (cmGetUniqueXcodeId CC_SHA256).

(** The loop writes the encoding of the bytes it reads; bytes past the
    end of the digest read as zero. *)
Lemma idStream_loop_spec (digest : list Byte.byte) (i count : nat) :
  idStream_loop digest i count =
  spec_hex_encode (map (fun j => nth j digest Byte.x00) (seq i count)).
Proof.
  unfold spec_hex_encode. revert i.
  induction count as [|count IH]; intros i; simpl; [reflexivity |].
  rewrite IH. unfold digest_at. now rewrite hex_byte_spec.
Qed.

Lemma take_as_nth (digest : list Byte.byte) (n : nat) :
  n <= length digest ->
  map (fun j => nth j digest Byte.x00) (seq 0 n) = take n digest.
Proof.
  intros Hn. apply list_eq. intros j.
  rewrite list_lookup_fmap.
  destruct (decide (j < n)) as [Hj | Hj].
  - rewrite lookup_seq_lt by lia. simpl.
    rewrite lookup_take_lt by lia.
    destruct (lookup_lt_is_Some_2 digest j ltac:(lia)) as [x Hx].
    rewrite Hx. f_equal. now rewrite nth_lookup, Hx.
  - rewrite lookup_seq_ge by lia. simpl.
    symmetry. apply lookup_ge_None. rewrite length_take. lia.
Qed.

Lemma length_idStream (digest : list Byte.byte) :
  String.length (idStream_loop digest 0 12) = 24.
Proof.
  rewrite idStream_loop_spec, length_spec_hex_encode.
  now rewrite length_map, length_seq.
Qed.

Lemma all_idStream (digest : list Byte.byte) :
  all spec_lower_hex (idStream_loop digest 0 12) = true.
Proof. rewrite idStream_loop_spec. apply all_spec_hex_encode. Qed.

(** For a digest of at least 12 bytes the loop writes the first 24
    characters of the digest's encoding. *)
Lemma idStream_digest (digest : list Byte.byte) :
  12 <= length digest ->
  idStream_loop digest 0 12 = substr0 24 (spec_hex_encode digest).
Proof.
  intros H. rewrite idStream_loop_spec, take_as_nth by assumption.
  symmetry. apply (spec_hex_encode_take 12).
Qed.

(** The identifier computed under the tag of the call site: because
    [erase] is given an iterator, one character goes, not the tail. *)
Lemma computed_id_02 (hashingKey : string) :
  computed_id hashingKey "02" =
  "02" +:+ erase_at 22 (idStream_loop (CC_SHA256 hashingKey) 0 12).
Proof.
  unfold Identity.computed_id.
  set (H := idStream_loop _ 0 12).
  assert (Hlen : String.length ("02" +:+ H) = 26).
  { simpl. unfold H. now rewrite length_idStream. }
  rewrite Hlen. reflexivity.
Qed.

Lemma length_computed_id_02 (hashingKey : string) :
  String.length (computed_id hashingKey "02") = 25.
Proof.
  rewrite computed_id_02, length_append, length_erase_at;
    rewrite length_idStream; simpl; lia.
Qed.

(** The constructor's normalisation cuts the 25 characters to 24. *)
Lemma normalise_computed_id (hashingKey : string) :
  normalise_id (computed_id hashingKey "02") =
  "02" +:+ substr0 22 (idStream_loop (CC_SHA256 hashingKey) 0 12).
Proof.
  unfold normalise_id.
  rewrite ReplaceString_hyphen_free.
  - rewrite length_computed_id_02. change (24 <? 25) with true. cbv iota.
    rewrite computed_id_02.
    change 24 with (String.length "02" + 22).
    rewrite substr0_append_l. f_equal. apply substr0_erase_at.
  - rewrite computed_id_02, all_append. apply andb_true_intro.
    split; [reflexivity |].
    apply all_erase_at.
    apply all_impl with (p := spec_lower_hex);
      [apply not_separator_of_hex | apply all_idStream].
Qed.

(** A second request for a key returns what the first returned and
    leaves the statics as the first left them. *)
Lemma cmGetUniqueXcodeId_again (hashingKey prefix : string) (st : IdState) :
  cmGetUniqueXcodeId hashingKey prefix
    (cmGetUniqueXcodeId hashingKey prefix st).2
  = cmGetUniqueXcodeId hashingKey prefix st.
Proof.
  unfold Identity.cmGetUniqueXcodeId.
  set (key := prefix +:+ "-" +:+ hashingKey).
  destruct (objectIdCache st !! key) as [cached |] eqn:E;
    cbn [fst snd objectIdCache].
  - now rewrite E.
  - now rewrite lookup_insert_eq.
Qed.

(** On a canonical cache a request returns the computed identifier,
    hit or miss, and the cache stays canonical. *)
Lemma cmGetUniqueXcodeId_canonical (hashingKey : string) (st : IdState) :
  cache_canonical CC_SHA256 st ->
  (cmGetUniqueXcodeId hashingKey "02" st).1 = computed_id hashingKey "02"
  /\ cache_canonical CC_SHA256 (cmGetUniqueXcodeId hashingKey "02" st).2
  /\ sequenceIndex (cmGetUniqueXcodeId hashingKey "02" st).2
     = sequenceIndex st.
Proof.
  intros Hc. unfold Identity.cmGetUniqueXcodeId.
  set (key := "02" +:+ "-" +:+ hashingKey).
  destruct (objectIdCache st !! key) as [cached |] eqn:E;
    cbn [fst snd objectIdCache sequenceIndex].
  - destruct (Hc _ _ E) as (k & Hk & ->).
    unfold key in Hk. simpl in Hk. injection Hk as <-. auto.
  - split; [reflexivity |]. split; [| reflexivity].
    intros lk v. cbn [objectIdCache].
    destruct (decide (key = lk)) as [<- | Hne].
    + rewrite lookup_insert_eq. intros [= <-]. now exists hashingKey.
    + rewrite lookup_insert_ne by assumption. apply Hc.
Qed.

End Digest.

End IdFacts.

(* ===================================================================== *)
(** * The identifier generator: the constructor *)
(* ===================================================================== *)

Module CtorFacts.
Import Str StrFacts Num NumFacts IdFacts.

(** The standard's function fills all [CC_SHA256_DIGEST_LENGTH] bytes. *)
Lemma length_sha256 (msg : string) : length (SHA256.sha256 msg) = 32.
Proof. reflexivity. Qed.

Section Constructor.
Context (CC_SHA256 : string -> list Byte.byte).

Local Abbreviation computed_id := (computed_id CC_SHA256).
Local Abbreviation cmGetUniqueXcodeId := (cmGetUniqueXcodeId CC_SHA256).
Local Abbreviation ctor_raw_id := (ctor_raw_id CC_SHA256).
Local Abbreviation new_cmXCodeObject := (new_cmXCodeObject CC_SHA256).
Local Abbreviation cache_canonical := (cache_canonical CC_SHA256).
Local Abbreviation reachable := (reachable CC_SHA256).

Lemma Id_new (ptype : PBXType) (type : Type_) (key : string)
    (st : IdState) :
  Id (new_cmXCodeObject ptype type key st).1
  = normalise_id (ctor_raw_id type key st).1.
Proof.
  unfold Identity.new_cmXCodeObject.
  now destruct (Identity.ctor_raw_id _ _ _ _).
Qed.

Lemma state_new (ptype : PBXType) (type : Type_) (key : string)
    (st : IdState) :
  (new_cmXCodeObject ptype type key st).2 = (ctor_raw_id type key st).2.
Proof.
  unfold Identity.new_cmXCodeObject.
  now destruct (Identity.ctor_raw_id _ _ _ _).
Qed.

Lemma ctor_raw_id_keyed (key : string) (st : IdState) :
  key <> EmptyString ->
  ctor_raw_id OBJECT key st = cmGetUniqueXcodeId key "02" st.
Proof. destruct key; [congruence | reflexivity]. Qed.

Lemma ctor_raw_id_canonical (type : Type_) (key : string) (st : IdState) :
  cache_canonical st -> cache_canonical (ctor_raw_id type key st).2.
Proof.
  intros Hc. destruct type; try exact Hc.
  destruct key as [|c key]; [exact Hc |].
  rewrite ctor_raw_id_keyed by discriminate.
  now apply cmGetUniqueXcodeId_canonical.
Qed.

(** Every reachable cache is canonical. *)
Lemma reachable_canonical (st : IdState) :
  reachable st -> cache_canonical st.
Proof.
  induction 1 as [| c st _ IH].
  - intros lk v. cbn. rewrite lookup_empty. discriminate.
  - destruct c as [ptype type key |]; cbn [call_state].
    + rewrite state_new. now apply ctor_raw_id_canonical.
    + exact IH.
Qed.

Lemma reachable_new (ptype : PBXType) (type : Type_) (key : string)
    (st : IdState) :
  reachable st -> reachable (new_cmXCodeObject ptype type key st).2.
Proof. intros H. exact (reachable_call _ (Construct ptype type key) st H). Qed.

Lemma reachable_reset (st : IdState) :
  reachable st -> reachable (resetIdSequence st).
Proof. intros H. exact (reachable_call _ Reset st H). Qed.

(** The identifier of an Object constructed with a key, whatever the
    cache holds. *)
Lemma Id_new_keyed (ptype : PBXType) (key : string) (st : IdState) :
  cache_canonical st -> key <> EmptyString ->
  Id (new_cmXCodeObject ptype OBJECT key st).1
  = "02" +:+ substr0 22 (idStream_loop (CC_SHA256 key) 0 12).
Proof.
  intros Hc Hk. rewrite Id_new, ctor_raw_id_keyed by assumption.
  destruct (cmGetUniqueXcodeId_canonical CC_SHA256 key st Hc) as (-> & _).
  apply normalise_computed_id.
Qed.

Section WithDigestLength.

(** [CC_SHA256] stores [CC_SHA256_DIGEST_LENGTH] = 32 bytes. *)
Hypothesis CC_SHA256_DIGEST_LENGTH :
  forall msg, length (CC_SHA256 msg) = 32.

(** C1.  An Object constructed with a non-empty derivation key [k]
    gets the identifier made of the tag 02 and the first 22
    characters of the lower-case hexadecimal encoding of the SHA-256
    digest of [k]; it is 24 characters long and has no hyphen. *)
Theorem content_derived_identifier (ptype : PBXType) (k : string)
    (st : IdState) :
  reachable st -> k <> EmptyString ->
  let id := Id (new_cmXCodeObject ptype OBJECT k st).1 in
  let hex22 := substr0 22 (spec_hex_encode (CC_SHA256 k)) in
  id = "02" +:+ hex22 /\
  String.length hex22 = 22 /\
  all spec_lower_hex hex22 = true /\
  String.length id = 24 /\
  all spec_not_separator id = true.
Proof.
  intros Hr Hk id hex22.
  assert (E : id = "02" +:+ hex22).
  { unfold id, hex22.
    rewrite Id_new_keyed by (auto using reachable_canonical).
    rewrite idStream_digest by (rewrite CC_SHA256_DIGEST_LENGTH; lia).
    now rewrite substr0_substr0 by lia. }
  assert (L : String.length hex22 = 22).
  { unfold hex22.
    rewrite length_substr0, length_spec_hex_encode,
      CC_SHA256_DIGEST_LENGTH. reflexivity. }
  assert (A : all spec_lower_hex hex22 = true).
  { apply all_substr0, all_spec_hex_encode. }
  repeat split; try assumption.
  - rewrite E, length_append, L. reflexivity.
  - rewrite E, all_append. apply andb_true_intro.
    split; [reflexivity |].
    revert A. apply all_impl, not_separator_of_hex.
Qed.

End WithDigestLength.

End Constructor.

(** The theorem at the key of the specification's end-to-end scenario. *)
Lemma content_derived_identifier_witness :
  reachable SHA256.sha256 IdState_init /\
  "rootgroup" <> EmptyString /\
  let id := Id (new_cmXCodeObject SHA256.sha256 PBXGroup OBJECT "rootgroup"
                  IdState_init).1 in
  let hex22 := substr0 22 (spec_hex_encode (SHA256.sha256 "rootgroup")) in
  id = "02" +:+ hex22 /\
  String.length hex22 = 22 /\
  all spec_lower_hex hex22 = true /\
  String.length id = 24 /\
  all spec_not_separator id = true.
Proof.
  split; [constructor |]. split; [discriminate |].
  apply (content_derived_identifier SHA256.sha256 length_sha256 PBXGroup
           "rootgroup" IdState_init); [constructor | discriminate].
Defined.

Example rootgroup_identifier :
  Id (new_cmXCodeObject SHA256.sha256 PBXGroup OBJECT "rootgroup"
        IdState_init).1 = "02c8d2dc745bfc63c0d67231".
Proof. vm_compute. reflexivity. Qed.

(** C2.  Requested twice for the key rootgroup under the tag 02, the
    generator returns the same string both times, the second time from
    the cache; the string it returns has 25 characters, the 23rd
    hexadecimal digit having been erased instead of the tail. *)
Theorem cmGetUniqueXcodeId_rootgroup :
  let first := cmGetUniqueXcodeId SHA256.sha256 "rootgroup" "02"
                 IdState_init in
  let second := cmGetUniqueXcodeId SHA256.sha256 "rootgroup" "02" first.2 in
  objectIdCache first.2 !! "02-rootgroup" = Some first.1 /\
  second.1 = first.1 /\
  first.1 = "02c8d2dc745bfc63c0d67231e" /\
  String.length first.1 = 25.
Proof. vm_compute. auto. Qed.

Section Sequence.
Context (CC_SHA256 : string -> list Byte.byte).

Local Abbreviation cmGetUniqueXcodeId := (cmGetUniqueXcodeId CC_SHA256).
Local Abbreviation ctor_raw_id := (ctor_raw_id CC_SHA256).
Local Abbreviation new_cmXCodeObject := (new_cmXCodeObject CC_SHA256).
Local Abbreviation cache_canonical := (cache_canonical CC_SHA256).
Local Abbreviation reachable := (reachable CC_SHA256).
Local Abbreviation generation_pass := (generation_pass CC_SHA256).
Local Abbreviation sequential_ids := (sequential_ids CC_SHA256).

Lemma next_index_lt (st : IdState) : (next_index st < size_t_modulus)%N.
Proof. apply N.mod_lt. discriminate. Qed.

Lemma ctor_raw_id_sequential (st : IdState) :
  ctor_raw_id OBJECT EmptyString st
  = ("01" +:+ pad_loop 22 (to_string (next_index st)),
     {| objectIdCache := objectIdCache st;
        sequenceIndex := next_index st |}).
Proof. reflexivity. Qed.

Lemma normalise_sequential (n : N) :
  normalise_id ("01" +:+ fixed_width 22 n) = "01" +:+ fixed_width 22 n.
Proof.
  unfold normalise_id. rewrite ReplaceString_hyphen_free.
  - rewrite length_append, length_fixed_width. reflexivity.
  - rewrite all_append. apply andb_true_intro. split; [reflexivity |].
    apply all_impl with (p := spec_decimal_digit);
      [apply not_separator_of_digit | apply all_digits_fixed_width].
Qed.

(** The identifier and the statics after a construction without key. *)
Lemma new_sequential (ptype : PBXType) (st : IdState) :
  Id (new_cmXCodeObject ptype OBJECT EmptyString st).1
  = "01" +:+ fixed_width 22 (next_index st)
  /\ (new_cmXCodeObject ptype OBJECT EmptyString st).2
     = {| objectIdCache := objectIdCache st;
          sequenceIndex := next_index st |}.
Proof.
  rewrite Id_new, state_new, ctor_raw_id_sequential. cbn [fst snd].
  rewrite pad_loop_to_string by apply next_index_lt.
  split; [apply normalise_sequential | reflexivity].
Qed.

Lemma is_sequential_true (c : PBXType * Type_ * string) :
  is_sequential c = true -> c = (c.1.1, OBJECT, EmptyString).
Proof.
  destruct c as [[ptype type] key]. unfold is_sequential. cbn [fst snd].
  rewrite andb_true_iff, bool_decide_eq_true. intros [-> Hk].
  destruct key; [reflexivity | discriminate].
Qed.

(** Constructions that do not draw from the counter leave it alone. *)
Lemma sequenceIndex_not_sequential (c : PBXType * Type_ * string)
    (st : IdState) :
  is_sequential c = false ->
  sequenceIndex (new_cmXCodeObject c.1.1 c.1.2 c.2 st).2 = sequenceIndex st.
Proof.
  destruct c as [[ptype type] key]. unfold is_sequential. cbn [fst snd].
  intros H. rewrite state_new.
  destruct type; try reflexivity.
  destruct key as [|a key]; [discriminate |].
  rewrite ctor_raw_id_keyed by discriminate.
  unfold Identity.cmGetUniqueXcodeId.
  now destruct (objectIdCache st !! _).
Qed.

(** As long as the counter does not wrap, the identifiers drawn from it
    in a pass are the renderings of consecutive numbers. *)
Lemma sequential_ids_consecutive
    (calls : list (PBXType * Type_ * string)) (st : IdState) :
  (sequenceIndex st + N.of_nat (draws calls) < size_t_modulus)%N ->
  sequential_ids calls st
  = map (fun n => "01" +:+ fixed_width 22 n)
        (count_from (sequenceIndex st + 1) (draws calls)).
Proof.
  unfold draws.
  revert st. induction calls as [|c calls IH]; intros st Hb;
    [reflexivity |].
  cbn [Identity.sequential_ids]. rewrite filter_cons in Hb.
  destruct (Identity.new_cmXCodeObject CC_SHA256 c.1.1 c.1.2 c.2 st)
    as [o st1] eqn:E.
  assert (E1 : o = (new_cmXCodeObject c.1.1 c.1.2 c.2 st).1)
    by now rewrite E.
  assert (E2 : st1 = (new_cmXCodeObject c.1.1 c.1.2 c.2 st).2)
    by now rewrite E.
  rewrite filter_cons.
  destruct (is_sequential c) eqn:S.
  - rewrite decide_True in Hb |- * by reflexivity. cbn [length] in Hb.
    apply is_sequential_true in S.
    rewrite S in E1, E2. cbn [fst snd] in E1, E2.
    destruct (new_sequential c.1.1 st) as [HId Hst].
    rewrite Hst in E2. rewrite E1, HId.
    assert (Hn : next_index st = (sequenceIndex st + 1)%N).
    { unfold next_index. apply N.mod_small. lia. }
    rewrite Hn in *.
    rewrite IH by (rewrite E2; cbn [sequenceIndex]; lia).
    rewrite E2. reflexivity.
  - rewrite decide_False in Hb |- * by discriminate.
    pose proof (sequenceIndex_not_sequential c st S) as Hs.
    rewrite <- E2 in Hs.
    rewrite IH by (rewrite Hs; lia).
    now rewrite Hs.
Qed.

(** Without a wrap of the counter the identifiers drawn in a pass are
    strictly increasing. *)
Lemma sequential_ids_increasing
    (calls : list (PBXType * Type_ * string)) (st : IdState) :
  (sequenceIndex st + N.of_nat (draws calls) < size_t_modulus)%N ->
  spec_increasing (sequential_ids calls st).
Proof.
  intros Hb. rewrite sequential_ids_consecutive by assumption.
  set (count := draws calls) in *. clearbody count.
  intros i j a b Hij Ha Hb'.
  rewrite list_lookup_fmap in Ha, Hb'.
  destruct (count_from _ count !! i) as [n |] eqn:En; [| discriminate].
  destruct (count_from _ count !! j) as [m |] eqn:Em; [| discriminate].
  assert (Ea : a = "01" +:+ fixed_width 22 n)
    by (cbv [fmap option_fmap option_map] in Ha; congruence).
  assert (Eb : b = "01" +:+ fixed_width 22 m)
    by (cbv [fmap option_fmap option_map] in Hb'; congruence).
  subst a b. clear Ha Hb'.
  pose proof (lookup_lt_Some _ _ _ Em) as Hj.
  rewrite length_count_from in Hj.
  apply count_from_lookup in En, Em.
  rewrite compare_append_same.
  apply fixed_width_compare; [lia |].
  assert ((2 ^ 64 < 10 ^ N.of_nat 22)%N) by (vm_compute; reflexivity).
  unfold size_t_modulus in Hb. lia.
Qed.

Lemma temporary_new (ptype : PBXType) (type : Type_) (key : string)
    (st : IdState) :
  type <> OBJECT -> ctor_raw_id type key st = (temporary_id, st).
Proof. now destruct type. Qed.

(** On canonical caches the identifier that a construction assigns and
    the counter it leaves depend on the counter only. *)
Lemma new_deterministic (ptype : PBXType) (type : Type_) (key : string)
    (s1 s2 : IdState) :
  cache_canonical s1 -> cache_canonical s2 ->
  sequenceIndex s1 = sequenceIndex s2 ->
  Id (new_cmXCodeObject ptype type key s1).1
  = Id (new_cmXCodeObject ptype type key s2).1
  /\ sequenceIndex (new_cmXCodeObject ptype type key s1).2
     = sequenceIndex (new_cmXCodeObject ptype type key s2).2.
Proof.
  intros C1 C2 Hs.
  destruct (decide (type = OBJECT)) as [-> | Ht].
  - destruct key as [|a key].
    + destruct (new_sequential ptype s1) as [-> ->].
      destruct (new_sequential ptype s2) as [-> ->].
      unfold next_index. rewrite Hs. auto.
    + rewrite !Id_new_keyed by (assumption || discriminate).
      split; [reflexivity |].
      rewrite !(sequenceIndex_not_sequential (ptype, OBJECT, String a key))
        by reflexivity.
      exact Hs.
  - rewrite !Id_new, !state_new, !temporary_new by assumption. auto.
Qed.

Lemma generation_pass_deterministic
    (calls : list (PBXType * Type_ * string)) (s1 s2 : IdState) :
  cache_canonical s1 -> cache_canonical s2 ->
  sequenceIndex s1 = sequenceIndex s2 ->
  (generation_pass calls s1).1 = (generation_pass calls s2).1.
Proof.
  revert s1 s2. induction calls as [|[[ptype type] key] calls IH];
    intros s1 s2 C1 C2 Hs; [reflexivity |].
  cbn [Identity.generation_pass].
  destruct (new_deterministic ptype type key s1 s2 C1 C2 Hs) as [HId Hs'].
  pose proof (ctor_raw_id_canonical CC_SHA256 type key s1 C1) as C1'.
  pose proof (ctor_raw_id_canonical CC_SHA256 type key s2 C2) as C2'.
  rewrite <- !state_new with (ptype := ptype) in C1', C2'.
  destruct (Identity.new_cmXCodeObject CC_SHA256 ptype type key s1)
    as [o1 t1].
  destruct (Identity.new_cmXCodeObject CC_SHA256 ptype type key s2)
    as [o2 t2].
  cbn [fst snd] in *.
  specialize (IH t1 t2 C1' C2' Hs').
  destruct (Identity.generation_pass CC_SHA256 calls t1).
  destruct (Identity.generation_pass CC_SHA256 calls t2).
  cbn [fst] in *. congruence.
Qed.

Lemma generation_pass_reachable
    (calls : list (PBXType * Type_ * string)) (st : IdState) :
  reachable st -> reachable (generation_pass calls st).2.
Proof.
  revert st. induction calls as [|[[ptype type] key] calls IH];
    intros st Hr; [exact Hr |].
  cbn [Identity.generation_pass].
  pose proof (reachable_new CC_SHA256 ptype type key st Hr) as Hr'.
  destruct (Identity.new_cmXCodeObject CC_SHA256 ptype type key st)
    as [o st1].
  specialize (IH st1 Hr').
  now destruct (Identity.generation_pass CC_SHA256 calls st1).
Qed.

(** C3, amended.  An Object constructed without derivation key gets the
    identifier 01 followed by the 22-digit zero-padded decimal rendering
    of the incremented counter, 24 characters in all.  The identifiers
    that a sequence of constructor calls draws from the counter are
    strictly increasing in the order of issuance provided the 64-bit
    counter does not wrap during it: its value before the calls plus the
    number of identifiers drawn is below 2^64.  A reset puts the counter
    back to zero, so that the next identifier drawn is that of 1.  Two
    passes making the same calls that both start with the counter at
    zero, the second after the reset that separates it from the first,
    assign the same identifiers. *)
Theorem sequential_identifiers (ptype : PBXType)
    (calls : list (PBXType * Type_ * string)) (st : IdState) :
  reachable st ->
  let constructed := new_cmXCodeObject ptype OBJECT EmptyString st in
  let digits := fixed_width 22 (next_index st) in
  (Id constructed.1 = "01" +:+ digits /\
   String.length digits = 22 /\
   all spec_decimal_digit digits = true /\
   spec_decimal_value digits = next_index st /\
   String.length (Id constructed.1) = 24 /\
   sequenceIndex constructed.2 = next_index st)
  /\
  ((sequenceIndex st + N.of_nat (draws calls) < size_t_modulus)%N ->
   spec_increasing (sequential_ids calls st))
  /\
  (sequenceIndex (resetIdSequence st) = 0%N /\
   Id (new_cmXCodeObject ptype OBJECT EmptyString (resetIdSequence st)).1
   = "01" +:+ fixed_width 22 1)
  /\
  (sequenceIndex st = 0%N ->
   let pass1 := generation_pass calls st in
   let pass2 := generation_pass calls (resetIdSequence pass1.2) in
   pass2.1 = pass1.1).
Proof.
  intros Hr constructed digits.
  destruct (new_sequential ptype st) as [HId Hst].
  fold constructed in HId, Hst. fold digits in HId.
  split; [| split; [| split]].
  - rewrite HId, Hst. unfold digits.
    rewrite length_append, length_fixed_width, all_digits_fixed_width.
    rewrite decimal_value_fixed_width; [auto 10 |].
    pose proof (next_index_lt st) as Hlt. unfold size_t_modulus in Hlt.
    assert ((2 ^ 64 < 10 ^ N.of_nat 22)%N) by (vm_compute; reflexivity).
    lia.
  - apply sequential_ids_increasing.
  - split; [reflexivity |].
    now destruct (new_sequential ptype (resetIdSequence st)) as [-> _].
  - intros Hz pass1 pass2. apply generation_pass_deterministic.
    + apply reachable_canonical, reachable_reset.
      now apply generation_pass_reachable.
    + now apply reachable_canonical.
    + now rewrite Hz.
Qed.

(** Every value of the counter is reached, by that many constructions
    without key from the start of the program. *)
Lemma reachable_index (n : N) :
  (n < size_t_modulus)%N ->
  reachable {| objectIdCache := ∅; sequenceIndex := n |}.
Proof.
  induction n as [|n IH] using N.peano_ind; intros Hn.
  - constructor.
  - specialize (IH ltac:(lia)).
    pose proof (reachable_new CC_SHA256 PBXGroup OBJECT EmptyString _ IH)
      as Hr.
    destruct (new_sequential PBXGroup
                {| objectIdCache := ∅; sequenceIndex := n |}) as [_ E].
    rewrite E in Hr. unfold next_index in Hr. cbn [sequenceIndex] in Hr.
    rewrite N.mod_small in Hr by lia.
    now rewrite N.add_1_r in Hr.
Qed.

End Sequence.

(** The theorem at the start of the program, for a pass that mixes the
    kinds of calls. *)
Lemma sequential_identifiers_witness :
  let calls := [ (PBXGroup, OBJECT, EmptyString);
                 (PBXFileReference, OBJECT, "rootgroup");
                 (PBXGroup, STRING, EmptyString);
                 (PBXProject, OBJECT, EmptyString) ] in
  reachable SHA256.sha256 IdState_init /\
  (sequenceIndex IdState_init + N.of_nat (draws calls) < size_t_modulus)%N /\
  sequenceIndex IdState_init = 0%N /\
  Id (new_cmXCodeObject SHA256.sha256 PBXGroup OBJECT EmptyString
        IdState_init).1 = "010000000000000000000001" /\
  spec_increasing (sequential_ids SHA256.sha256 calls IdState_init) /\
  (generation_pass SHA256.sha256 calls
     (resetIdSequence
        (generation_pass SHA256.sha256 calls IdState_init).2)).1
  = (generation_pass SHA256.sha256 calls IdState_init).1.
Proof.
  intros calls.
  assert (Hr : reachable SHA256.sha256 IdState_init) by constructor.
  assert (Hb : (sequenceIndex IdState_init + N.of_nat (draws calls)
                < size_t_modulus)%N) by (vm_compute; reflexivity).
  assert (Hz : sequenceIndex IdState_init = 0%N) by reflexivity.
  destruct (sequential_identifiers SHA256.sha256 PBXGroup calls IdState_init
              Hr) as ((HId & _) & Hinc & _ & Hpass).
  split; [exact Hr |]. split; [exact Hb |]. split; [exact Hz |].
  split; [exact HId |]. split; [exact (Hinc Hb) | exact (Hpass Hz)].
Defined.

(** C3 as stated fails in two places.  Where the counter wraps: from the
    reachable state in which [2^64 - 2] identifiers have been drawn, the
    next two constructions without key get 18446744073709551615 and then
    0.  And where the first of two passes does not start at zero: after
    one identifier has been drawn, a pass of one construction without
    key gets the identifier of 2, and the same pass after a reset that
    of 1. *)
Lemma sequential_identifiers_wrap :
  let st := {| objectIdCache := ∅; sequenceIndex := 2 ^ 64 - 2 |} in
  let calls := [ (PBXGroup, OBJECT, EmptyString);
                 (PBXGroup, OBJECT, EmptyString) ] in
  let started := {| objectIdCache := ∅; sequenceIndex := 1 |} in
  let pass := [ (PBXGroup, OBJECT, EmptyString) ] in
  (reachable SHA256.sha256 st /\
   sequential_ids SHA256.sha256 calls st
   = [ "010018446744073709551615"; "010000000000000000000000" ] /\
   ~ spec_increasing (sequential_ids SHA256.sha256 calls st))
  /\
  (reachable SHA256.sha256 started /\
   (generation_pass SHA256.sha256 pass started).1
   = [ "010000000000000000000002" ] /\
   (generation_pass SHA256.sha256 pass
      (resetIdSequence (generation_pass SHA256.sha256 pass started).2)).1
   = [ "010000000000000000000001" ]).
Proof.
  intros st calls started pass.
  assert (E : sequential_ids SHA256.sha256 calls st
              = [ "010018446744073709551615"; "010000000000000000000000" ])
    by (vm_compute; reflexivity).
  split.
  - split; [apply reachable_index; vm_compute; reflexivity |].
    split; [exact E |].
    rewrite E. intros H.
    specialize (H 0 1 _ _ ltac:(lia) eq_refl eq_refl).
    vm_compute in H. discriminate.
  - split; [apply reachable_index; vm_compute; reflexivity |].
    split; vm_compute; reflexivity.
Qed.

(** The bound counts the identifiers drawn, not the calls: four calls of
    which two draw, from a counter four below the end, do not wrap. *)
Example sequential_identifiers_near_the_end :
  let st := {| objectIdCache := ∅; sequenceIndex := 2 ^ 64 - 4 |} in
  let calls := [ (PBXGroup, OBJECT, EmptyString);
                 (PBXGroup, OBJECT, "rootgroup");
                 (PBXGroup, STRING, EmptyString);
                 (PBXGroup, OBJECT, EmptyString) ] in
  (sequenceIndex st + N.of_nat (draws calls) < size_t_modulus)%N /\
  sequential_ids SHA256.sha256 calls st
  = [ "010018446744073709551613"; "010018446744073709551614" ].
Proof. vm_compute. auto. Qed.

End CtorFacts.

(* ===================================================================== *)
(** * The serializer *)
(* ===================================================================== *)

Module PrintFacts.
Import Str StrFacts.

Section Serializer.
Context (HasComment : cmXCodeObject -> bool).
Context (PrintComment : cmXCodeObject -> string).

Local Abbreviation list_loop := (list_loop PrintComment).
Local Abbreviation PrintAttribute :=
  (PrintAttribute HasComment PrintComment).
Local Abbreviation attribute_loop :=
  (attribute_loop HasComment PrintComment).
Local Abbreviation Print := (Print HasComment PrintComment).

(** C5.  [Print] selects the compact layout (separator one space,
    indentation factor zero) exactly when the version exceeds 15 and the
    entity type is PBXFileReference or PBXBuildFile, and the expanded
    layout (separator newline, indentation factor one, hence tabs) in
    every other case; the text it writes is laid out accordingly. *)
Theorem Print_layout_selection (this : cmXCodeObject) :
  let compact :=
    bool_decide ((15 < Version this)%Z /\
                 (IsA this = PBXFileReference \/ IsA this = PBXBuildFile)) in
  Print_layout this = (if compact then (" ", 0) else (nl, 1)) /\
  Print this =
    if compact then
      attributes ← attribute_loop true 3 " " 0 this (ObjectAttributes this);
      Some (Indent 2 +:+ Id this +:+ PrintComment this +:+ " = {" +:+
            "isa = " +:+ PBXTypeName (IsA this) +:+ ";" +:+ " " +:+
            attributes +:+ "};" +:+ nl)
    else
      attributes ← attribute_loop true 3 nl 1 this (ObjectAttributes this);
      Some (Indent 2 +:+ Id this +:+ PrintComment this +:+ " = {" +:+ nl +:+
            Indent 3 +:+ "isa = " +:+ PBXTypeName (IsA this) +:+ ";" +:+
            nl +:+ attributes +:+ Indent 2 +:+ "};" +:+ nl).
Proof.
  intros compact.
  assert (E : Print_layout this = if compact then (" ", 0) else (nl, 1)).
  { unfold Print_layout, compact.
    repeat case_bool_decide; cbn [andb orb];
      first [reflexivity | exfalso; tauto]. }
  split; [exact E |].
  unfold Serial.Print. rewrite E.
  destruct compact; reflexivity.
Qed.

Lemma list_loop_app (level factor : nat) (separator : string)
    (size i : nat) (a b : list cmXCodeObject) :
  list_loop level factor separator size i (a ++ b)
  = list_loop level factor separator size i a +:+
    list_loop level factor separator size (i + length a) b.
Proof.
  revert i. induction a as [|e a IH]; intros i.
  - cbn. now rewrite Nat.add_0_r.
  - cbn [app Serial.list_loop length]. rewrite IH, !append_assoc.
    now replace (S i + length a) with (i + S (length a)) by lia.
Qed.

(** The index test [i + 1 < size] of the loop is the test for a last
    element. *)
Lemma list_loop_spec (level factor : nat) (separator : string)
    (size i : nat) (l : list cmXCodeObject) :
  size = i + length l ->
  list_loop level factor separator size i l
  = spec_list_elements PrintComment level factor separator l.
Proof.
  revert i. induction l as [|e l IH]; intros i Hs; [reflexivity |].
  cbn [Serial.list_loop spec_list_elements].
  rewrite IH by (cbn [length] in Hs; lia).
  f_equal. unfold spec_list_element.
  destruct (decide (TypeValue e = STRING)); [| reflexivity].
  f_equal. destruct l as [|e' l]; cbn [length] in Hs.
  - rewrite bool_decide_eq_true_2 by reflexivity.
    destruct (Nat.ltb_spec (i + 1) size); [lia | reflexivity].
  - rewrite bool_decide_eq_false_2 by discriminate.
    destruct (Nat.ltb_spec (i + 1) size); [reflexivity | lia].
Qed.

(** A list of String elements is written as the literals with commas
    between them. *)
Lemma spec_list_elements_strings (level factor : nat) (separator : string)
    (l : list cmXCodeObject) :
  Forall (fun e => TypeValue e = STRING) l ->
  spec_list_elements PrintComment level factor separator l
  = spec_comma_separated (map PrintString_of l).
Proof.
  induction 1 as [|e l He _ IH]; [reflexivity |].
  cbn [spec_list_elements map]. rewrite IH.
  unfold spec_list_element. rewrite decide_True by assumption.
  destruct l as [|e' l].
  - rewrite bool_decide_eq_true_2 by reflexivity. cbn.
    now rewrite !append_nil_r.
  - rewrite bool_decide_eq_false_2 by discriminate.
    cbn [map spec_comma_separated]. now rewrite append_assoc.
Qed.

Lemma PrintAttribute_list (level : nat) (separator : string)
    (factor : nat) (name : string) (object parent : cmXCodeObject) :
  TypeValue object = OBJECT_LIST ->
  PrintAttribute level separator factor name object parent =
  Some (Indent (level * factor) +:+ name +:+ " = (" +:+
        (if decide (TypeValue parent <> ATTRIBUTE_GROUP)
         then separator else EmptyString) +:+
        list_loop level factor separator (length (List_ object)) 0
          (List_ object) +:+
        (if decide (TypeValue parent <> ATTRIBUTE_GROUP)
         then Indent (level * factor) else EmptyString) +:+
        ");" +:+ separator).
Proof.
  intros Ht. destruct object. cbn in Ht. subst. reflexivity.
Qed.

Lemma spec_list_elements_lines (level factor : nat) (separator : string)
    (l : list cmXCodeObject) :
  Forall (fun e => TypeValue e <> STRING) l ->
  spec_list_elements PrintComment level factor separator l
  = Str.cat (map (spec_list_line PrintComment level factor separator) l).
Proof.
  induction 1 as [|e l He _ IH]; [reflexivity |].
  cbn [spec_list_elements map Str.cat]. rewrite IH.
  unfold spec_list_element. now rewrite decide_False by assumption.
Qed.

(** C6, amended.  Inside an AttributeGroup the opening parenthesis of an
    ObjectList is not followed by the separator and the closing one is
    not preceded by indentation; under any other parent both are
    written.  The elements are written the same way under either
    parent, in their order: a String element as its literal, with a
    comma unless it is the last, any other element as indentation one
    level deeper, identifier, comment, comma and separator.  Hence a
    list of String elements only is one run of literals and commas, and
    a list without String elements is the texts of its elements one
    after the other, which with the newline as separator are lines. *)
Theorem PrintAttribute_object_list (level : nat) (separator : string)
    (factor : nat) (name : string) (object parent : cmXCodeObject) :
  TypeValue object = OBJECT_LIST ->
  let in_group := bool_decide (TypeValue parent = ATTRIBUTE_GROUP) in
  let indent := Indent (level * factor) in
  let elements :=
    spec_list_elements PrintComment level factor separator (List_ object) in
  PrintAttribute level separator factor name object parent =
    Some (indent +:+ name +:+ " = (" +:+
          (if in_group then EmptyString else separator) +:+
          elements +:+
          (if in_group then EmptyString else indent) +:+
          ");" +:+ separator)
  /\
  (Forall (fun e => TypeValue e = STRING) (List_ object) ->
   elements = spec_comma_separated (map PrintString_of (List_ object)))
  /\
  (Forall (fun e => TypeValue e <> STRING) (List_ object) ->
   elements
   = Str.cat (map (spec_list_line PrintComment level factor separator)
                  (List_ object))).
Proof.
  intros Ht in_group indent elements. split; [| split].
  - rewrite PrintAttribute_list by assumption.
    rewrite list_loop_spec by reflexivity.
    unfold in_group. case_bool_decide.
    + rewrite !decide_False by tauto. reflexivity.
    + rewrite !decide_True by assumption. reflexivity.
  - apply spec_list_elements_strings.
  - apply spec_list_elements_lines.
Qed.

(** C7, amended.  A String element of an ObjectList is written as its
    quoted literal, followed by a comma exactly when it is not the last
    element of the list. *)
Theorem PrintAttribute_list_string_element (level : nat)
    (separator : string) (factor : nat) (name : string)
    (object parent : cmXCodeObject)
    (pre : list cmXCodeObject) (e : cmXCodeObject)
    (post : list cmXCodeObject) :
  TypeValue object = OBJECT_LIST ->
  List_ object = pre ++ e :: post ->
  TypeValue e = STRING ->
  let size := length (List_ object) in
  let before :=
    Indent (level * factor) +:+ name +:+ " = (" +:+
    (if decide (TypeValue parent <> ATTRIBUTE_GROUP)
     then separator else EmptyString) +:+
    list_loop level factor separator size 0 pre in
  let after :=
    list_loop level factor separator size (S (length pre)) post +:+
    (if decide (TypeValue parent <> ATTRIBUTE_GROUP)
     then Indent (level * factor) else EmptyString) +:+
    ");" +:+ separator in
  PrintAttribute level separator factor name object parent =
    Some (before +:+ PrintString_of e +:+
          (if bool_decide (post = []) then EmptyString else ",") +:+
          after).
Proof.
  intros Ht Hl He size before after.
  assert (Hsize : size = length pre + S (length post)).
  { unfold size. rewrite Hl, length_app. reflexivity. }
  rewrite PrintAttribute_list by assumption. f_equal.
  unfold before, after. fold size. clearbody size. rewrite Hl.
  rewrite list_loop_app. cbn [Serial.list_loop].
  rewrite (decide_True (P := TypeValue e = STRING)) by assumption.
  assert (Hlast : (0 + length pre + 1 <? size)
                  = negb (bool_decide (post = []))).
  { destruct post as [|e' post]; cbn [length] in Hsize.
    - rewrite bool_decide_eq_true_2 by reflexivity.
      destruct (Nat.ltb_spec (0 + length pre + 1) size); [lia | reflexivity].
    - rewrite bool_decide_eq_false_2 by discriminate.
      destruct (Nat.ltb_spec (0 + length pre + 1) size); [reflexivity | lia]. }
  rewrite Hlast. cbn [Nat.add].
  destruct (bool_decide (post = [])); cbn [negb];
    now rewrite !append_assoc.
Qed.

(** C8.  An ObjectReference attribute whose link is set is written as
    the attribute name, quoted if need be, the text " = ", the
    identifier of the referenced Object, then the comment of the
    referenced Object exactly when that Object has a comment and the
    attribute is not named remoteGlobalIDString, then a semicolon and
    the separator; all of it after the indentation common to every
    attribute. *)
Theorem PrintAttribute_object_reference (level : nat) (separator : string)
    (factor : nat) (name : string) (object parent target : cmXCodeObject) :
  TypeValue object = OBJECT_REF ->
  Object object = Some target ->
  PrintAttribute level separator factor name object parent =
    Some (Indent (level * factor) +:+
          PrintString name +:+ " = " +:+ Id target +:+
          (if bool_decide (HasComment target = true /\
                           name <> "remoteGlobalIDString")
           then PrintComment target else EmptyString) +:+
          ";" +:+ separator).
Proof.
  intros Ht Ho. destruct object. cbn in Ht, Ho. subst.
  cbn [Serial.PrintAttribute TypeValue Object mbind option_bind].
  do 5 f_equal.
  destruct (HasComment target); cbn [andb].
  - destruct (String.eqb_spec name "remoteGlobalIDString") as [E | E];
      cbn [negb].
    + rewrite bool_decide_eq_false_2 by tauto. reflexivity.
    + rewrite bool_decide_eq_true_2 by tauto. reflexivity.
  - rewrite bool_decide_eq_false_2; [reflexivity |].
    intros [? _]. discriminate.
Qed.

End Serializer.

(** The specification's three layout examples. *)
Example layout_version16_file_reference :
  Print comment_present comment_text
    (object_node PBXFileReference 16 "0A1B2C3D4E5F60718293A4B5" "main.c"
       [("path", Some (string_node "src/main.c"))])
  = Some (Indent 2 +:+ "0A1B2C3D4E5F60718293A4B5 /* main.c */ = {" +:+
          "isa = PBXFileReference; path = src/main.c; };" +:+ nl).
Proof. vm_compute. reflexivity. Qed.

Example layout_version16_group :
  Print comment_present comment_text
    (object_node PBXGroup 16 "0A1B2C3D4E5F60718293A4B5" EmptyString
       [("name", Some (string_node "Sources"))])
  = Some (Indent 2 +:+ "0A1B2C3D4E5F60718293A4B5 = {" +:+ nl +:+
          Indent 3 +:+ "isa = PBXGroup;" +:+ nl +:+
          Indent 3 +:+ "name = Sources;" +:+ nl +:+
          Indent 2 +:+ "};" +:+ nl).
Proof. vm_compute. reflexivity. Qed.

Example layout_version15_file_reference :
  Print comment_present comment_text
    (object_node PBXFileReference 15 "0A1B2C3D4E5F60718293A4B5" EmptyString
       [("path", Some (string_node "src/main.c"))])
  = Some (Indent 2 +:+ "0A1B2C3D4E5F60718293A4B5 = {" +:+ nl +:+
          Indent 3 +:+ "isa = PBXFileReference;" +:+ nl +:+
          Indent 3 +:+ "path = src/main.c;" +:+ nl +:+
          Indent 2 +:+ "};" +:+ nl).
Proof. vm_compute. reflexivity. Qed.

(** C6 as stated fails in both halves.  Inside an AttributeGroup, in the
    expanded layout, an element other than a String is still written
    with its indentation and the newline after it, so that the list is
    not one compact run.  And as a direct attribute of an Object, in the
    expanded layout, an element other than a String that follows a
    String element is not on a line of its own: its indentation and
    identifier follow the literal and its comma on the same line. *)
Lemma object_list_in_group_not_compact :
  let element :=
    object_node PBXBuildFile 15 "0A1B2C3D4E5F60718293A4B5"
      "main.c in Sources" [] in
  let files := list_node [element] in
  let parent := group_node [("files", Some files)] in
  let interior :=
    Indent 5 +:+ "0A1B2C3D4E5F60718293A4B5 /* main.c in Sources */," +:+ nl in
  let mixed := list_node [string_node "a"; element] in
  let owner :=
    object_node PBXGroup 15 "0F0E0D0C0B0A090807060504" EmptyString
      [("files", Some mixed)] in
  (TypeValue parent = ATTRIBUTE_GROUP /\
   PrintAttribute comment_present comment_text 4 nl 1 "files" files parent
   = Some (Indent 4 +:+ "files = (" +:+ interior +:+ ");" +:+ nl) /\
   all spec_not_layout interior = false)
  /\
  (TypeValue owner = OBJECT /\
   PrintAttribute comment_present comment_text 3 nl 1 "files" mixed owner
   = Some (Indent 3 +:+ "files = (" +:+ nl +:+
           "a," +:+ Indent 4 +:+
           "0A1B2C3D4E5F60718293A4B5 /* main.c in Sources */," +:+ nl +:+
           Indent 3 +:+ ");" +:+ nl)).
Proof. vm_compute. auto. Qed.

(** The amended C6 at a list of two strings inside an AttributeGroup,
    and at a list of two Objects as a direct attribute of an Object. *)
Lemma PrintAttribute_object_list_witness :
  let files := list_node [string_node "a"; string_node "b c"] in
  let parent := group_node [("files", Some files)] in
  let one := object_node PBXBuildFile 15 "0A1B2C3D4E5F60718293A4B5"
               "main.c in Sources" [] in
  let two := object_node PBXBuildFile 15 "0F0E0D0C0B0A090807060504"
               EmptyString [] in
  let objects := list_node [one; two] in
  let owner := object_node PBXGroup 15 "00112233445566778899AABB"
                 EmptyString [("files", Some objects)] in
  (TypeValue files = OBJECT_LIST /\
   Forall (fun e => TypeValue e = STRING) (List_ files) /\
   PrintAttribute comment_present comment_text 4 nl 1 "files" files parent
   = Some (Indent 4 +:+ "files = (" +:+
           spec_comma_separated (map PrintString_of (List_ files)) +:+
           ");" +:+ nl))
  /\
  (TypeValue objects = OBJECT_LIST /\
   Forall (fun e => TypeValue e <> STRING) (List_ objects) /\
   PrintAttribute comment_present comment_text 3 nl 1 "files" objects owner
   = Some (Indent 3 +:+ "files = (" +:+ nl +:+
           (Indent 4 +:+
            "0A1B2C3D4E5F60718293A4B5 /* main.c in Sources */," +:+ nl +:+
            Indent 4 +:+ "0F0E0D0C0B0A090807060504," +:+ nl) +:+
           Indent 3 +:+ ");" +:+ nl)).
Proof.
  intros files parent one two objects owner.
  assert (Ht : TypeValue files = OBJECT_LIST) by reflexivity.
  assert (Hs : Forall (fun e => TypeValue e = STRING) (List_ files))
    by (repeat constructor).
  destruct (PrintAttribute_object_list comment_present comment_text
              4 nl 1 "files" files parent Ht) as (Hout & Hrun & _).
  assert (Ht' : TypeValue objects = OBJECT_LIST) by reflexivity.
  assert (Ho : Forall (fun e => TypeValue e <> STRING) (List_ objects))
    by (repeat constructor; discriminate).
  destruct (PrintAttribute_object_list comment_present comment_text
              3 nl 1 "files" objects owner Ht') as (Hout' & _ & Hlines).
  split.
  - split; [exact Ht |]. split; [exact Hs |].
    rewrite <- (Hrun Hs). exact Hout.
  - split; [exact Ht' |]. split; [exact Ho |].
    rewrite Hout', (Hlines Ho). vm_compute. reflexivity.
Defined.

(** C7 as stated fails at the last element: the list of the two strings
    a and b is written with a comma after a and none after b. *)
Lemma list_last_string_without_comma :
  let files := list_node [string_node "a"; string_node "b"] in
  let parent :=
    object_node PBXGroup 15 "0A1B2C3D4E5F60718293A4B5" EmptyString
      [("files", Some files)] in
  PrintAttribute comment_present comment_text 3 nl 1 "files" files parent
  = Some (Indent 3 +:+ "files = (" +:+ nl +:+ "a,b" +:+ Indent 3 +:+ ");"
          +:+ nl) /\
  PrintAttribute comment_present comment_text 3 nl 1 "files" files parent
  <> Some (Indent 3 +:+ "files = (" +:+ nl +:+ "a,b," +:+ Indent 3 +:+ ");"
           +:+ nl).
Proof. vm_compute. split; [reflexivity | discriminate]. Qed.

(** The amended C7 at the last element of that list. *)
Lemma PrintAttribute_list_string_element_witness :
  let files := list_node [string_node "a"; string_node "b"] in
  let parent :=
    object_node PBXGroup 15 "0A1B2C3D4E5F60718293A4B5" EmptyString
      [("files", Some files)] in
  TypeValue files = OBJECT_LIST /\
  List_ files = [string_node "a"] ++ string_node "b" :: [] /\
  TypeValue (string_node "b") = STRING /\
  PrintAttribute comment_present comment_text 3 nl 1 "files" files parent
  = Some ((Indent 3 +:+ "files = (" +:+ nl +:+ "a,") +:+ "b" +:+
          EmptyString +:+ (Indent 3 +:+ ");" +:+ nl)).
Proof.
  intros files parent.
  split; [reflexivity |]. split; [reflexivity |]. split; [reflexivity |].
  exact (PrintAttribute_list_string_element comment_present comment_text
           3 nl 1 "files" files parent [string_node "a"] (string_node "b") []
           eq_refl eq_refl eq_refl).
Defined.

(** C8 at a reference to a target that has a comment. *)
Lemma PrintAttribute_object_reference_witness :
  let target :=
    object_node PBXNativeTarget 15 "0A1B2C3D4E5F60718293A4B5" "MyApp" [] in
  let object := ref_node target in
  let parent :=
    object_node PBXTargetDependency 15 "0F0E0D0C0B0A090807060504"
      EmptyString [("target", Some object)] in
  TypeValue object = OBJECT_REF /\
  Object object = Some target /\
  PrintAttribute comment_present comment_text 3 nl 1 "target" object parent
  = Some (Indent 3 +:+ "target = 0A1B2C3D4E5F60718293A4B5 /* MyApp */;"
          +:+ nl).
Proof.
  intros target object parent.
  split; [reflexivity |]. split; [reflexivity |].
  exact (PrintAttribute_object_reference comment_present comment_text
           3 nl 1 "target" object parent target eq_refl eq_refl).
Defined.

Example reference_named_remoteGlobalIDString :
  let target :=
    object_node PBXNativeTarget 15 "0A1B2C3D4E5F60718293A4B5" "MyApp" [] in
  PrintAttribute comment_present comment_text 3 nl 1 "remoteGlobalIDString"
    (ref_node target) (blank_node OBJECT)
  = Some (Indent 3 +:+ "remoteGlobalIDString = 0A1B2C3D4E5F60718293A4B5;"
          +:+ nl).
Proof. vm_compute. reflexivity. Qed.

(** C10.  [CopyAttributes] gives the receiver the attribute map, the
    element list, the string value and the object link of the source, and
    leaves its identifier, entity type, node kind and format version, as
    well as its target handle and comment, as they were. *)
Theorem CopyAttributes_frame (this copy : cmXCodeObject) :
  let result := CopyAttributes this copy in
  (ObjectAttributes result = ObjectAttributes copy /\
   List_ result = List_ copy /\
   String_ result = String_ copy /\
   Object result = Object copy)
  /\
  (Id result = Id this /\
   IsA result = IsA this /\
   TypeValue result = TypeValue this /\
   Version result = Version this /\
   Target result = Target this /\
   Comment result = Comment this).
Proof. cbn. auto 10. Qed.

End PrintFacts.

(* ===================================================================== *)
(** * The NSIS generator *)
(* ===================================================================== *)

Module NSISFacts.
Import Str StrFacts NSIS.

Section Generator.
Context (FindTemplate : string -> string).
Context (GetOption : string -> string).
Context (ConfigureFile : string -> string -> World -> World).
Context (RunSingleCommand : string -> Z -> bool * string * Z).
Context (ReadRegistryValue : string -> option string).
Context (FindProgram : string -> list string -> string).
Context (Superclass_Initialize : string -> World -> Z * World).

Local Abbreviation tmpFile := (tmpFile GetOption).
Local Abbreviation nsisFileName := (nsisFileName GetOption).
Local Abbreviation nsisCmd := (nsisCmd GetOption).
Local Abbreviation log_content := (log_content GetOption).
Local Abbreviation CompressFiles :=
  (CompressFiles FindTemplate GetOption ConfigureFile RunSingleCommand).
Local Abbreviation Initialize :=
  (Initialize ReadRegistryValue FindProgram Superclass_Initialize).

Local Abbreviation world_after_run :=
  (world_after_run FindTemplate GetOption ConfigureFile).

Lemma CompressFiles_no_template (w : World) :
  FindTemplate "NSIS.template.in" = EmptyString ->
  CompressFiles w
  = (0%Z,
     cerr_line "CPack error: Could not find NSIS installer template file."
       w).
Proof. intros E. unfold NSIS.CompressFiles. now rewrite E. Qed.

(** The two paths and the command are made of an option's C string and
    of literals: they hold no NUL byte, and their [c_str()] is the whole
    of them. *)
Lemma tmpFile_not_nul : all not_nul tmpFile = true.
Proof.
  unfold NSIS.tmpFile. now rewrite all_append, c_str_not_nul.
Qed.

Lemma nsisFileName_not_nul : all not_nul nsisFileName = true.
Proof.
  unfold NSIS.nsisFileName. now rewrite all_append, c_str_not_nul.
Qed.

Lemma nsisCmd_not_nul : all not_nul nsisCmd = true.
Proof.
  unfold NSIS.nsisCmd.
  now rewrite !all_append, c_str_not_nul, nsisFileName_not_nul.
Qed.

Lemma c_str_tmpFile : c_str tmpFile = tmpFile.
Proof. apply c_str_id, tmpFile_not_nul. Qed.

Lemma c_str_nsisFileName : c_str nsisFileName = nsisFileName.
Proof. apply c_str_id, nsisFileName_not_nul. Qed.

Lemma c_str_nsisCmd : c_str nsisCmd = nsisCmd.
Proof. apply c_str_id, nsisCmd_not_nul. Qed.

Lemma log_content_eq (output : string) :
  log_content output
  = "# Run command: " +:+ nsisCmd +:+ nl +:+
    "# Output:" +:+ nl +:+ c_str output +:+ nl.
Proof. unfold NSIS.log_content. now rewrite c_str_nsisCmd. Qed.

Lemma CompressFiles_run (w : World) :
  FindTemplate "NSIS.template.in" <> EmptyString ->
  CompressFiles w =
  let '(res, output, retVal) := RunSingleCommand nsisCmd 1%Z in
  if negb res || negb (retVal =? 0)%Z then
    (0%Z,
     cerr_line ("Please check " +:+ tmpFile +:+ " for errors")
       (cerr_line ("Problem running NSIS command: " +:+ nsisCmd)
          (write_file tmpFile (log_content output) (world_after_run w))))
  else (1%Z, world_after_run w).
Proof.
  intros E. unfold NSIS.CompressFiles, NSIS.world_after_run.
  rewrite !c_str_nsisCmd, !c_str_tmpFile.
  destruct (Nat.eqb_spec (String.length (FindTemplate "NSIS.template.in")) 0)
    as [H | H]; [apply length_zero in H; congruence | reflexivity].
Qed.

(** C9, amended.  Each failure returns 0: no template, no registry
    entry for the installer compiler, no installer compiler, and a run
    of the installer compiler that could not be launched or ended with a
    non-zero code.  In the last case the captured output, up to its
    first NUL byte, is written after the command to NSISOutput.log in
    the directory of the generated project.nsi, no other file is
    touched, and the message names that file.  The other three messages
    name no file, and with them the generator writes no file: the files
    are those the caller, or the superclass's initialisation, left.  A
    run that succeeds returns 1 and writes no log. *)
Theorem NSIS_failure_reporting (name : string) (w : World) :
  (FindTemplate "NSIS.template.in" = EmptyString ->
   (CompressFiles w).1 = 0%Z /\
   files (CompressFiles w).2 = files w /\
   cerr (CompressFiles w).2 = cerr w +:+
     "CPack error: Could not find NSIS installer template file." +:+ nl)
  /\
  (forall res output retVal,
     FindTemplate "NSIS.template.in" <> EmptyString ->
     RunSingleCommand nsisCmd 1%Z = (res, output, retVal) ->
     res = false \/ retVal <> 0%Z ->
     (CompressFiles w).1 = 0%Z /\
     files (CompressFiles w).2 !! tmpFile = Some (log_content output) /\
     (forall path, path <> tmpFile ->
        files (CompressFiles w).2 !! path
        = files (world_after_run w) !! path) /\
     log_content output
     = "# Run command: " +:+ nsisCmd +:+ nl +:+
       "# Output:" +:+ nl +:+ c_str output +:+ nl /\
     (exists rest, output = c_str output +:+ rest) /\
     all not_nul (c_str output) = true /\
     (all not_nul output = true -> c_str output = output) /\
     (forall before after,
        output = before +:+ String nul after ->
        all not_nul before = true -> c_str output = before) /\
     contains (c_str output) (log_content output) /\
     cerr (CompressFiles w).2 = cerr (world_after_run w) +:+
       "Problem running NSIS command: " +:+ nsisCmd +:+ nl +:+
       "Please check " +:+ tmpFile +:+ " for errors" +:+ nl /\
     tmpFile
     = c_str (GetOption "CPACK_TOPLEVEL_DIRECTORY") +:+ "/NSISOutput.log" /\
     nsisFileName
     = c_str (GetOption "CPACK_TOPLEVEL_DIRECTORY") +:+ "/project.nsi")
  /\
  (forall output,
     FindTemplate "NSIS.template.in" <> EmptyString ->
     RunSingleCommand nsisCmd 1%Z = (true, output, 0%Z) ->
     CompressFiles w = (1%Z, world_after_run w))
  /\
  (ReadRegistryValue "HKEY_LOCAL_MACHINE\SOFTWARE\NSIS" = None ->
   (Initialize name w).1 = 0%Z /\
   files (Initialize name w).2 =
     files (Superclass_Initialize name
              (cout_line "cmCPackNSISGenerator::Initialize()" w)).2 /\
   cerr (Initialize name w).2 =
     cerr (Superclass_Initialize name
             (cout_line "cmCPackNSISGenerator::Initialize()" w)).2 +:+
     "Cannot find NSIS registry value" +:+ nl)
  /\
  (forall nsisPath,
     ReadRegistryValue "HKEY_LOCAL_MACHINE\SOFTWARE\NSIS" = Some nsisPath ->
     FindProgram "makensis" [nsisPath] = EmptyString ->
     (Initialize name w).1 = 0%Z /\
     files (Initialize name w).2 =
       files (Superclass_Initialize name
                (cout_line "cmCPackNSISGenerator::Initialize()" w)).2 /\
     cerr (Initialize name w).2 =
       cerr (Superclass_Initialize name
               (cout_line "cmCPackNSISGenerator::Initialize()" w)).2 +:+
       "Cannot find NSIS compiler" +:+ nl).
Proof.
  split; [| split; [| split; [| split]]].
  - intros E. rewrite CompressFiles_no_template by assumption.
    cbn [fst snd cerr_line files cerr]. auto.
  - intros res output retVal E R Hfail.
    rewrite CompressFiles_run, R by assumption.
    assert (F : negb res || negb (retVal =? 0)%Z = true).
    { destruct Hfail as [-> | Hr]; [reflexivity |].
      apply Z.eqb_neq in Hr. rewrite Hr. apply orb_true_r. }
    rewrite F. cbn [fst snd cerr_line write_file files cerr].
    split; [reflexivity |]. split; [apply lookup_insert_eq |].
    split; [intros path Hp; now rewrite lookup_insert_ne |].
    split; [apply log_content_eq |].
    split; [apply c_str_prefix |].
    split; [apply c_str_not_nul |].
    split; [apply c_str_id |].
    split; [intros before after ->; apply c_str_stops |].
    split.
    { exists ("# Run command: " +:+ nsisCmd +:+ nl +:+ "# Output:" +:+ nl),
        nl.
      rewrite log_content_eq. now rewrite !append_assoc. }
    split; [now rewrite !append_assoc |]. auto.
  - intros output E R. rewrite CompressFiles_run, R by assumption.
    reflexivity.
  - intros E. unfold NSIS.Initialize.
    destruct (Superclass_Initialize name _) as [r w1]. rewrite E.
    cbn [fst snd cerr_line cerr files]. auto.
  - intros nsisPath E P. unfold NSIS.Initialize.
    destruct (Superclass_Initialize name _) as [r w1]. rewrite E, P.
    cbn [fst snd cerr_line cerr files empty]. auto.
Qed.

End Generator.

(** The theorem at an installer compiler that ends with code 1. *)
Lemma NSIS_failure_reporting_witness :
  let run := CompressFiles example_template_found example_options
               example_configure example_run_exit_1 World_init in
  example_template_found "NSIS.template.in" <> EmptyString /\
  example_run_exit_1 (nsisCmd example_options) 1%Z
  = (true, "Error: cannot open script", 1%Z) /\
  run.1 = 0%Z /\
  files run.2 !! "/tmp/pkg/NSISOutput.log"
  = Some (log_content example_options "Error: cannot open script") /\
  files run.2 !! "/tmp/pkg/project.nsi"
  = Some "; configured from /usr/share/cmake/NSIS.template.in" /\
  contains "Error: cannot open script"
    (log_content example_options "Error: cannot open script") /\
  contains "Please check /tmp/pkg/NSISOutput.log for errors" (cerr run.2).
Proof.
  intros run.
  assert (Ht : example_template_found "NSIS.template.in" <> EmptyString)
    by discriminate.
  assert (Hr : example_run_exit_1 (nsisCmd example_options) 1%Z
               = (true, "Error: cannot open script", 1%Z)) by reflexivity.
  destruct (NSIS_failure_reporting example_template_found example_options
              example_configure example_run_exit_1 example_registry_empty
              example_find_program example_superclass_initialize
              "NSIS" World_init) as (_ & Hrun & _).
  destruct (Hrun true "Error: cannot open script" 1%Z Ht Hr
              ltac:(right; discriminate))
    as (H0 & Hlog & _ & _ & _ & _ & _ & _ & Hin & Hcerr & _).
  split; [exact Ht |]. split; [exact Hr |]. split; [exact H0 |].
  split; [exact Hlog |]. split; [vm_compute; reflexivity |].
  split; [exact Hin |].
  fold run in Hcerr. rewrite Hcerr.
  exists (cerr (world_after_run example_template_found example_options
                  example_configure World_init)
          +:+ "Problem running NSIS command: " +:+ nsisCmd example_options
          +:+ nl),
    nl.
  vm_compute. reflexivity.
Defined.

(** C9 as stated fails for the messages that precede the run of the
    installer compiler: without a template, and without the registry
    key, the generator returns 0 after a message that names no log
    file, and no log file has been written.  It fails also for a
    captured output with a NUL byte in it: the log holds the output up
    to that byte and nothing of what follows it. *)
Lemma NSIS_messages_without_log :
  let compress := CompressFiles example_template_missing example_options
                    example_configure example_run_exit_1 World_init in
  let initialize := Initialize example_registry_empty example_find_program
                      example_superclass_initialize "NSIS" World_init in
  let cut := CompressFiles example_template_found example_options
               example_configure example_run_nul_output World_init in
  (compress.1 = 0%Z /\
   cerr compress.2
   = "CPack error: Could not find NSIS installer template file." +:+ nl /\
   files compress.2 = ∅ /\
   find (tmpFile example_options) (cerr compress.2) = None /\
   find "log" (cerr compress.2) = None)
  /\
  (initialize.1 = 0%Z /\
   cerr initialize.2 = "Cannot find NSIS registry value" +:+ nl /\
   files initialize.2 = ∅ /\
   find "log" (cerr initialize.2) = None)
  /\
  (example_run_nul_output (nsisCmd example_options) 1%Z
   = (true, "abc" +:+ chr nul +:+ "def", 1%Z) /\
   cut.1 = 0%Z /\
   files cut.2 !! "/tmp/pkg/NSISOutput.log"
   = Some ("# Run command: " +:+ nsisCmd example_options +:+ nl +:+
           "# Output:" +:+ nl +:+ "abc" +:+ nl) /\
   (forall content,
      files cut.2 !! "/tmp/pkg/NSISOutput.log" = Some content ->
      find "def" content = None)).
Proof.
  split; [vm_compute; auto 10 |]. split; [vm_compute; auto 10 |].
  split; [reflexivity |]. split; [reflexivity |].
  split; [vm_compute; reflexivity |].
  intros content. vm_compute. intros [= <-]. reflexivity.
Qed.

End NSISFacts.

(* ===================================================================== *)
(** * More about the identifier generator *)
(* ===================================================================== *)

Module IdentityMore.
Import Str StrFacts Num NumFacts IdFacts CtorFacts.

(** The normalisation at the end of the constructor bounds the length
    and removes the hyphens of whatever it is given. *)
Lemma normalise_id_bound (id : string) :
  String.length (normalise_id id) <= 24 /\
  all spec_not_separator (normalise_id id) = true.
Proof.
  unfold normalise_id.
  pose proof (ReplaceString_hyphen_gone id) as Hg.
  set (r := ReplaceString id "-" EmptyString) in *. clearbody r.
  destruct (Nat.ltb_spec 24 (String.length r)).
  - rewrite length_substr0. split; [lia | now apply all_substr0].
  - split; [lia | assumption].
Qed.

Lemma substr0_2_append (a b : ascii) (s : string) :
  substr0 2 (String a (String b EmptyString) +:+ s)
  = String a (String b EmptyString).
Proof. destruct s; reflexivity. Qed.

Lemma normalise_temporary_id :
  normalise_id temporary_id = "Temporary cmake object, ".
Proof. vm_compute. reflexivity. Qed.

Section Statics.
Context (CC_SHA256 : string -> list Byte.byte).

Local Abbreviation computed_id := (computed_id CC_SHA256).
Local Abbreviation cmGetUniqueXcodeId := (cmGetUniqueXcodeId CC_SHA256).
Local Abbreviation ctor_raw_id := (ctor_raw_id CC_SHA256).
Local Abbreviation new_cmXCodeObject := (new_cmXCodeObject CC_SHA256).
Local Abbreviation cache_canonical := (cache_canonical CC_SHA256).
Local Abbreviation reachable := (reachable CC_SHA256).
Local Abbreviation call_state := (call_state CC_SHA256).

(** X1.  In every reachable state of the statics the constructor gives
    a node of any kind, with or without key, an identifier of exactly 24
    characters without hyphen. *)
Theorem constructed_identifier_24 (ptype : PBXType) (type : Type_)
    (key : string) (st : IdState) :
  reachable st ->
  String.length (Id (new_cmXCodeObject ptype type key st).1) = 24 /\
  all spec_not_separator (Id (new_cmXCodeObject ptype type key st).1) = true.
Proof.
  intros Hr.
  split; [| rewrite Id_new; apply normalise_id_bound].
  destruct (decide (type = OBJECT)) as [-> | Ht].
  - destruct key as [|a key].
    + destruct (new_sequential CC_SHA256 ptype st) as [-> _].
      rewrite length_append, length_fixed_width. reflexivity.
    + rewrite Id_new_keyed
        by (auto using reachable_canonical || discriminate).
      rewrite length_append, length_substr0, length_idStream. reflexivity.
  - rewrite Id_new, temporary_new by assumption. cbn [fst].
    now rewrite normalise_temporary_id.
Qed.

(** X2.  Whatever the statics hold, reachable or not, the identifier of
    a constructed node has at most 24 characters and no hyphen. *)
Theorem constructed_identifier_bound (ptype : PBXType) (type : Type_)
    (key : string) (st : IdState) :
  String.length (Id (new_cmXCodeObject ptype type key st).1) <= 24 /\
  all spec_not_separator (Id (new_cmXCodeObject ptype type key st).1) = true.
Proof. rewrite Id_new. apply normalise_id_bound. Qed.

(** The constructed node is determined by its identifier and the
    arguments. *)
Lemma new_node (ptype : PBXType) (type : Type_) (key : string)
    (st : IdState) :
  (new_cmXCodeObject ptype type key st).1 =
  {| Version := 15; Target := None; Object := None; IsA := ptype;
     Id := Id (new_cmXCodeObject ptype type key st).1;
     TypeValue := type; Comment := EmptyString;
     ObjectAttributes :=
       if decide (type = OBJECT) then AddAttribute "isa" None [] else [];
     List_ := []; String_ := EmptyString |}.
Proof.
  unfold Identity.new_cmXCodeObject.
  now destruct (Identity.ctor_raw_id _ _ _ _).
Qed.

(** X3.  Two Objects constructed with the same entity type and the same
    non-empty key are equal nodes, whatever was constructed before them
    and whether or not the counter was reset in between. *)
Theorem keyed_object_stable (ptype : PBXType) (key : string)
    (s1 s2 : IdState) :
  reachable s1 -> reachable s2 -> key <> EmptyString ->
  (new_cmXCodeObject ptype OBJECT key s1).1
  = (new_cmXCodeObject ptype OBJECT key s2).1.
Proof.
  intros H1 H2 Hk.
  rewrite (new_node ptype OBJECT key s1), (new_node ptype OBJECT key s2).
  now rewrite !Id_new_keyed by (auto using reachable_canonical).
Qed.

Lemma nth_take (digest : list Byte.byte) (n j : nat) :
  j < n -> nth j (take n digest) Byte.x00 = nth j digest Byte.x00.
Proof.
  intros Hj. now rewrite !nth_lookup, lookup_take_lt by assumption.
Qed.

(** The 22 characters kept of the stream encode the first 11 bytes. *)
Lemma substr0_22_idStream (digest : list Byte.byte) :
  substr0 22 (idStream_loop digest 0 12)
  = spec_hex_encode (map (fun j => nth j digest Byte.x00) (seq 0 11)).
Proof.
  rewrite idStream_loop_spec.
  rewrite (spec_hex_encode_take 11).
  f_equal.
Qed.

(** X4.  Of the twelve digest bytes that the generator encodes only the
    first eleven reach the identifier: two non-empty keys whose digests
    agree on their first 11 bytes get the same identifier. *)
Theorem keyed_identifier_11_bytes (p1 p2 : PBXType) (k1 k2 : string)
    (s1 s2 : IdState) :
  reachable s1 -> reachable s2 ->
  k1 <> EmptyString -> k2 <> EmptyString ->
  take 11 (CC_SHA256 k1) = take 11 (CC_SHA256 k2) ->
  Id (new_cmXCodeObject p1 OBJECT k1 s1).1
  = Id (new_cmXCodeObject p2 OBJECT k2 s2).1.
Proof.
  intros H1 H2 Hk1 Hk2 Ht.
  rewrite !Id_new_keyed by (auto using reachable_canonical).
  rewrite !substr0_22_idStream. do 2 f_equal.
  apply map_ext_in. intros j Hj. apply in_seq in Hj.
  rewrite <- (nth_take (CC_SHA256 k1) 11 j) by lia.
  rewrite <- (nth_take (CC_SHA256 k2) 11 j) by lia.
  now rewrite Ht.
Qed.

(** X5.  The three kinds of identifier never coincide: one drawn from
    the counter starts with 01, one derived from a key with 02, and the
    one of a node that is not an Object with the letters Te. *)
Theorem identifier_kinds_disjoint (p1 p2 p3 : PBXType) (key key3 : string)
    (type : Type_) (s1 s2 s3 : IdState) :
  reachable s2 -> key <> EmptyString -> type <> OBJECT ->
  let sequential := Id (new_cmXCodeObject p1 OBJECT EmptyString s1).1 in
  let keyed := Id (new_cmXCodeObject p2 OBJECT key s2).1 in
  let temporary := Id (new_cmXCodeObject p3 type key3 s3).1 in
  substr0 2 sequential = "01" /\ substr0 2 keyed = "02" /\
  substr0 2 temporary = "Te" /\
  sequential <> keyed /\ sequential <> temporary /\ keyed <> temporary.
Proof.
  intros H2 Hk Ht sequential keyed temporary.
  assert (E1 : substr0 2 sequential = "01").
  { unfold sequential.
    now destruct (new_sequential CC_SHA256 p1 s1) as [-> _]. }
  assert (E2 : substr0 2 keyed = "02").
  { unfold keyed.
    rewrite Id_new_keyed by (auto using reachable_canonical).
    apply substr0_2_append. }
  assert (E3 : substr0 2 temporary = "Te").
  { unfold temporary. rewrite Id_new, temporary_new by assumption.
    cbn [fst]. now rewrite normalise_temporary_id. }
  repeat split; try assumption; intros E; rewrite E in *; congruence.
Qed.

(** A call never changes or removes an entry of the cache. *)
Lemma cache_entry_kept (c : call) (st : IdState) (lookupKey cached : string) :
  objectIdCache st !! lookupKey = Some cached ->
  objectIdCache (call_state c st) !! lookupKey = Some cached.
Proof.
  intros H. destruct c as [ptype type key |]; [| exact H].
  cbn [Identity.call_state]. rewrite state_new.
  destruct type; try exact H.
  destruct key as [|a key]; [exact H |].
  rewrite ctor_raw_id_keyed by discriminate.
  unfold Identity.cmGetUniqueXcodeId.
  set (lk := "02" +:+ "-" +:+ String a key).
  destruct (objectIdCache st !! lk) eqn:E; [exact H |].
  cbn [snd objectIdCache].
  rewrite lookup_insert_ne; [exact H |]. intros ->. congruence.
Qed.

(** X6.  Once an identifier is cached it stays cached, unchanged,
    through every later sequence of constructions and resets: the cache
    is never cleared, and a reset touches the counter only. *)
Theorem cache_entries_persist (calls : list call) (st : IdState)
    (lookupKey cached : string) :
  objectIdCache st !! lookupKey = Some cached ->
  objectIdCache (fold_left (fun s c => call_state c s) calls st)
    !! lookupKey = Some cached.
Proof.
  revert st. induction calls as [|c calls IH]; intros st H; [exact H |].
  cbn [fold_left]. apply IH. now apply cache_entry_kept.
Qed.

(** X7.  The construction of an Object with a non-empty key leaves that
    key cached with the identifier in its 25-character form, of which
    the identifier of the Object is the first 24 characters. *)
Theorem keyed_object_cached (ptype : PBXType) (key : string)
    (st : IdState) :
  reachable st -> key <> EmptyString ->
  let constructed := new_cmXCodeObject ptype OBJECT key st in
  objectIdCache constructed.2 !! ("02-" +:+ key)
  = Some (computed_id key "02") /\
  Id constructed.1 = substr0 24 (computed_id key "02") /\
  sequenceIndex constructed.2 = sequenceIndex st.
Proof.
  intros Hr Hk constructed. unfold constructed.
  rewrite state_new, Id_new, ctor_raw_id_keyed by assumption.
  pose proof (reachable_canonical CC_SHA256 st Hr) as Hc.
  destruct (cmGetUniqueXcodeId_canonical CC_SHA256 key st Hc)
    as (E & _ & Hs).
  rewrite E. split; [| split; [| exact Hs]].
  - unfold Identity.cmGetUniqueXcodeId.
    change ("02" +:+ "-" +:+ key) with ("02-" +:+ key).
    destruct (objectIdCache st !! ("02-" +:+ key)) as [v |] eqn:L;
      cbn [snd objectIdCache].
    + rewrite L. destruct (Hc _ _ L) as (k & Hk' & ->).
      simpl in Hk'. now injection Hk' as <-.
    + apply lookup_insert_eq.
  - unfold normalise_id at 1.
    assert (A : all spec_not_separator (computed_id key "02") = true).
    { rewrite computed_id_02, all_append. apply andb_true_intro.
      split; [reflexivity |]. apply all_erase_at.
      apply all_impl with (p := spec_lower_hex);
        [apply not_separator_of_hex | apply all_idStream]. }
    rewrite ReplaceString_hyphen_free by assumption.
    now rewrite length_computed_id_02.
Qed.

(** X8.  The first identifier drawn after a reset is that of the number
    1, whatever was drawn before: the value 0 of the counter itself is
    never rendered after a reset. *)
Theorem first_identifier_after_reset (ptype : PBXType) (st : IdState) :
  Id (new_cmXCodeObject ptype OBJECT EmptyString (resetIdSequence st)).1
  = "010000000000000000000001".
Proof.
  destruct (new_sequential CC_SHA256 ptype (resetIdSequence st)) as [-> _].
  reflexivity.
Qed.

(** X9.  On a miss [cmGetUniqueXcodeId] returns 24 characters under an
    empty tag and, under a tag of [n >= 1] characters, [n + 23]: the
    24 hexadecimal digits after the tag, less the one at index 24. *)
Theorem computed_id_length (hashingKey prefix : string) (st : IdState) :
  objectIdCache st !! (prefix +:+ "-" +:+ hashingKey) = None ->
  String.length (cmGetUniqueXcodeId hashingKey prefix st).1
  = if String.length prefix =? 0 then 24
    else String.length prefix + 23.
Proof.
  intros Hmiss. unfold Identity.cmGetUniqueXcodeId. rewrite Hmiss.
  cbn [fst]. unfold Identity.computed_id.
  pose proof (length_idStream (CC_SHA256 hashingKey)) as Hl.
  set (stream := idStream_loop _ 0 12) in *. clearbody stream.
  destruct (Nat.ltb_spec 24 (String.length (prefix +:+ stream))) as [H | H];
    rewrite length_append, Hl in H.
  - rewrite length_erase_at by (rewrite length_append; lia).
    rewrite length_append, Hl.
    destruct (Nat.eqb_spec (String.length prefix) 0); lia.
  - rewrite length_append, Hl.
    destruct (Nat.eqb_spec (String.length prefix) 0); lia.
Qed.

(** X10.  A node is empty when it leaves the constructor, whatever its
    kind: the entry isa of an Object does not count. *)
Theorem constructed_node_empty (ptype : PBXType) (type : Type_)
    (key : string) (st : IdState) :
  IsEmpty (new_cmXCodeObject ptype type key st).1 = true.
Proof. rewrite new_node. now destruct type. Qed.

(** X22.  Constructing a second Object with a key that has just been
    used changes nothing in the statics, and the second Object gets the
    identifier of the first, whatever the cache held before, canonical
    or not. *)
Theorem keyed_construction_repeated (p1 p2 : PBXType) (key : string)
    (st : IdState) :
  key <> EmptyString ->
  let first := new_cmXCodeObject p1 OBJECT key st in
  let second := new_cmXCodeObject p2 OBJECT key first.2 in
  second.2 = first.2 /\ Id second.1 = Id first.1.
Proof.
  intros Hk first second. unfold second, first.
  rewrite !state_new, !Id_new, !ctor_raw_id_keyed by assumption.
  now rewrite cmGetUniqueXcodeId_again.
Qed.

End Statics.

Lemma keyed_construction_repeated_witness :
  let stale := {| objectIdCache := {[ "02-rootgroup" := "02-stale-entry" ]};
                  sequenceIndex := 7 |} in
  let first := new_cmXCodeObject SHA256.sha256 PBXGroup OBJECT "rootgroup"
                 stale in
  let second := new_cmXCodeObject SHA256.sha256 PBXProject OBJECT "rootgroup"
                  first.2 in
  "rootgroup" <> EmptyString /\
  second.2 = first.2 /\ Id second.1 = Id first.1 /\
  Id first.1 = "02staleentry".
Proof.
  intros stale first second.
  assert (Hk : "rootgroup" <> EmptyString) by discriminate.
  destruct (keyed_construction_repeated SHA256.sha256 PBXGroup PBXProject
              "rootgroup" stale Hk) as [Hs Hi].
  split; [exact Hk |]. split; [exact Hs |]. split; [exact Hi |].
  vm_compute. reflexivity.
Defined.

Lemma constructed_identifier_24_witness :
  reachable SHA256.sha256 IdState_init /\
  String.length
    (Id (new_cmXCodeObject SHA256.sha256 PBXGroup ATTRIBUTE_GROUP "a-b"
           IdState_init).1) = 24 /\
  all spec_not_separator
    (Id (new_cmXCodeObject SHA256.sha256 PBXGroup ATTRIBUTE_GROUP "a-b"
           IdState_init).1) = true.
Proof.
  split; [constructor |].
  apply (constructed_identifier_24 SHA256.sha256 PBXGroup ATTRIBUTE_GROUP
           "a-b" IdState_init). constructor.
Defined.

Lemma keyed_object_stable_witness :
  let later :=
    call_state SHA256.sha256 Reset
      (call_state SHA256.sha256 (Construct PBXProject OBJECT EmptyString)
         (call_state SHA256.sha256 (Construct PBXGroup OBJECT "other")
            IdState_init)) in
  reachable SHA256.sha256 IdState_init /\
  reachable SHA256.sha256 later /\
  "rootgroup" <> EmptyString /\
  (new_cmXCodeObject SHA256.sha256 PBXGroup OBJECT "rootgroup"
     IdState_init).1
  = (new_cmXCodeObject SHA256.sha256 PBXGroup OBJECT "rootgroup" later).1.
Proof.
  intros later.
  assert (H1 : reachable SHA256.sha256 IdState_init) by constructor.
  assert (H2 : reachable SHA256.sha256 later) by (repeat constructor).
  assert (Hk : "rootgroup" <> EmptyString) by discriminate.
  split; [exact H1 |]. split; [exact H2 |]. split; [exact Hk |].
  exact (keyed_object_stable SHA256.sha256 PBXGroup "rootgroup"
           IdState_init later H1 H2 Hk).
Defined.

(** A digest whose first 11 bytes are the same for every message. *)
Lemma keyed_identifier_11_bytes_witness :
  let digest := fun msg : string =>
    repeat Byte.x00 11 ++ SHA256.sha256 msg in
  reachable digest IdState_init /\
  "a" <> EmptyString /\ "b" <> EmptyString /\
  take 11 (digest "a") = take 11 (digest "b") /\
  digest "a" <> digest "b" /\
  Id (new_cmXCodeObject digest PBXGroup OBJECT "a" IdState_init).1
  = Id (new_cmXCodeObject digest PBXProject OBJECT "b" IdState_init).1.
Proof.
  intros digest.
  assert (H1 : reachable digest IdState_init) by constructor.
  assert (Ha : "a" <> EmptyString) by discriminate.
  assert (Hb : "b" <> EmptyString) by discriminate.
  assert (Ht : take 11 (digest "a") = take 11 (digest "b")) by reflexivity.
  split; [exact H1 |]. split; [exact Ha |]. split; [exact Hb |].
  split; [exact Ht |]. split; [vm_compute; discriminate |].
  exact (keyed_identifier_11_bytes digest PBXGroup PBXProject "a" "b"
           IdState_init IdState_init H1 H1 Ha Hb Ht).
Defined.

Lemma identifier_kinds_disjoint_witness :
  let sequential :=
    Id (new_cmXCodeObject SHA256.sha256 PBXGroup OBJECT EmptyString
          IdState_init).1 in
  let keyed :=
    Id (new_cmXCodeObject SHA256.sha256 PBXGroup OBJECT "rootgroup"
          IdState_init).1 in
  let temporary :=
    Id (new_cmXCodeObject SHA256.sha256 PBXGroup STRING "rootgroup"
          IdState_init).1 in
  reachable SHA256.sha256 IdState_init /\
  "rootgroup" <> EmptyString /\ STRING <> OBJECT /\
  sequential <> keyed /\ sequential <> temporary /\ keyed <> temporary.
Proof.
  intros sequential keyed temporary.
  assert (H1 : reachable SHA256.sha256 IdState_init) by constructor.
  assert (Hk : "rootgroup" <> EmptyString) by discriminate.
  assert (Ht : STRING <> OBJECT) by discriminate.
  split; [exact H1 |]. split; [exact Hk |]. split; [exact Ht |].
  exact (proj2 (proj2 (proj2
    (identifier_kinds_disjoint SHA256.sha256 PBXGroup PBXGroup PBXGroup
       "rootgroup" "rootgroup" STRING IdState_init IdState_init
       IdState_init H1 Hk Ht)))).
Defined.

Lemma cache_entries_persist_witness :
  let st := (new_cmXCodeObject SHA256.sha256 PBXGroup OBJECT "rootgroup"
               IdState_init).2 in
  let calls := [ Reset; Construct PBXProject OBJECT "other";
                 Construct PBXGroup OBJECT "rootgroup"; Reset ] in
  objectIdCache st !! "02-rootgroup" = Some "02c8d2dc745bfc63c0d67231e" /\
  objectIdCache
    (fold_left (fun s c => call_state SHA256.sha256 c s) calls st)
    !! "02-rootgroup" = Some "02c8d2dc745bfc63c0d67231e".
Proof.
  intros st calls.
  assert (H : objectIdCache st !! "02-rootgroup"
              = Some "02c8d2dc745bfc63c0d67231e")
    by (vm_compute; reflexivity).
  split; [exact H |].
  exact (cache_entries_persist SHA256.sha256 calls st "02-rootgroup"
           "02c8d2dc745bfc63c0d67231e" H).
Defined.

Lemma keyed_object_cached_witness :
  let constructed :=
    new_cmXCodeObject SHA256.sha256 PBXGroup OBJECT "rootgroup"
      IdState_init in
  reachable SHA256.sha256 IdState_init /\
  "rootgroup" <> EmptyString /\
  objectIdCache constructed.2 !! "02-rootgroup"
  = Some (computed_id SHA256.sha256 "rootgroup" "02") /\
  Id constructed.1 = substr0 24 (computed_id SHA256.sha256 "rootgroup" "02").
Proof.
  intros constructed.
  assert (H1 : reachable SHA256.sha256 IdState_init) by constructor.
  assert (Hk : "rootgroup" <> EmptyString) by discriminate.
  destruct (keyed_object_cached SHA256.sha256 PBXGroup "rootgroup"
              IdState_init H1 Hk) as (Hc & Hi & _).
  split; [exact H1 |]. split; [exact Hk |]. split; [exact Hc | exact Hi].
Defined.

Lemma computed_id_length_witness :
  objectIdCache IdState_init !! ("PBX" +:+ "-" +:+ "rootgroup") = None /\
  String.length
    (cmGetUniqueXcodeId SHA256.sha256 "rootgroup" "PBX" IdState_init).1
  = 26.
Proof.
  assert (H : objectIdCache IdState_init !! ("PBX" +:+ "-" +:+ "rootgroup")
              = None) by reflexivity.
  split; [exact H |].
  exact (computed_id_length SHA256.sha256 "rootgroup" "PBX" IdState_init H).
Defined.

End IdentityMore.

(* ===================================================================== *)
(** * More about the quoting rule *)
(* ===================================================================== *)

Module QuotingMore.
Import Str StrFacts.

Lemma unescape_escape_loop (s : string) :
  spec_unescape (escape_loop s +:+ chr dquote) = Some s.
Proof.
  induction s as [|c s IH]; [reflexivity |].
  cbn [escape_loop].
  destruct (Ascii.eqb_spec c dquote) as [-> | Hq].
  - cbn [orb]. change (chr backslash +:+ String dquote (escape_loop s))
      with (String backslash (String dquote (escape_loop s))).
    cbn [String.append spec_unescape].
    change (Ascii.eqb backslash dquote) with false.
    change (Ascii.eqb backslash backslash) with true. cbv iota.
    now rewrite IH.
  - destruct (Ascii.eqb_spec c backslash) as [-> | Hb]; cbn [orb].
    + change (chr backslash +:+ String backslash (escape_loop s))
        with (String backslash (String backslash (escape_loop s))).
      cbn [String.append spec_unescape].
      change (Ascii.eqb backslash dquote) with false.
      change (Ascii.eqb backslash backslash) with true. cbv iota.
      now rewrite IH.
    + cbn [String.append spec_unescape].
      destruct (Ascii.eqb_spec c dquote); [contradiction |].
      destruct (Ascii.eqb_spec c backslash); [contradiction |].
      now rewrite IH.
Qed.

Lemma unquoted_not_must_quote (s : string) :
  needQuote s = false ->
  s <> EmptyString /\
  forall c, In c (chars s) -> spec_unquoted_char c = true.
Proof.
  intros Q.
  assert (Hn : ~ spec_must_quote s).
  { intros H. apply needQuote_spec in H. congruence. }
  split.
  - intros ->. apply Hn. now left.
  - intros c Hc. destruct (spec_unquoted_char c) eqn:U; [reflexivity |].
    exfalso. apply Hn. right. right. now exists c.
Qed.

(** X11.  What [PrintString] writes can be read back: reading the
    literal returns the string that was printed, so that two different
    strings are never printed alike. *)
Theorem PrintString_read_back (s : string) :
  spec_read_literal (PrintString s) = Some s /\
  forall t, PrintString s = PrintString t -> s = t.
Proof.
  assert (R : forall u, spec_read_literal (PrintString u) = Some u).
  { intros u. unfold PrintString. destruct (needQuote u) eqn:Q.
    - change (chr dquote +:+ escape_loop u +:+ chr dquote)
        with (String dquote (escape_loop u +:+ chr dquote)).
      cbn [spec_read_literal].
      change (Ascii.eqb dquote dquote) with true. cbv iota.
      apply unescape_escape_loop.
    - destruct (unquoted_not_must_quote u Q) as [Hne Hall].
      change (EmptyString +:+ escape_loop u +:+ EmptyString)
        with (escape_loop u +:+ EmptyString).
      rewrite append_nil_r, escape_loop_unquoted by assumption.
      destruct u as [|c u]; [congruence |].
      cbn [spec_read_literal].
      assert (Hc : spec_unquoted_char c = true) by (apply Hall; now left).
      destruct (Ascii.eqb_spec c dquote) as [-> | _];
        [discriminate | reflexivity]. }
  split; [apply R |].
  intros t E. pose proof (R s) as Hs. rewrite E, R in Hs. congruence.
Qed.

Lemma length_escape_loop (s : string) :
  String.length s <= String.length (escape_loop s) <= 2 * String.length s.
Proof.
  induction s as [|c s IH]; [cbn; lia |].
  cbn [escape_loop]. rewrite length_append. cbn [String.length].
  destruct (Ascii.eqb c dquote || Ascii.eqb c backslash); cbn; lia.
Qed.

(** X12.  [PrintString] never writes nothing, never drops a character
    and writes at most two characters for each one of the string plus
    the two quotes. *)
Theorem PrintString_length (s : string) :
  1 <= String.length (PrintString s) /\
  String.length s <= String.length (PrintString s)
    <= 2 * String.length s + 2.
Proof.
  pose proof (length_escape_loop s) as He.
  unfold PrintString. destruct (needQuote s) eqn:Q.
  - rewrite !length_append. cbn [chr String.length]. lia.
  - destruct (unquoted_not_must_quote s Q) as [Hne _].
    rewrite !length_append. cbn [String.length].
    destruct s as [|c s]; [congruence |]. cbn [String.length] in *. lia.
Qed.

End QuotingMore.

(* ===================================================================== *)
(** * More about the serializer *)
(* ===================================================================== *)

Module SerializerMore.
Import Str StrFacts PrintFacts.

(** Induction over a node and the nodes bound in its attribute map. *)
Lemma node_attributes_ind (P : cmXCodeObject -> Prop) :
  (forall n,
     Forall (fun kv => match kv.2 with
                       | Some child => P child
                       | None => True
                       end) (ObjectAttributes n) -> P n) ->
  forall n, P n.
Proof.
  intros H. fix IH 1. intros n. apply H.
  destruct n as [v t o i id ty c attrs l s]. cbn [ObjectAttributes].
  induction attrs as [|[k [child |]] attrs IHa]; constructor; cbn;
    auto.
Qed.

Lemma well_linked_unfold (object : cmXCodeObject) :
  well_linked object =
  match TypeValue object with
  | ATTRIBUTE_GROUP => entries_linked (ObjectAttributes object)
  | OBJECT_REF =>
      match Object object with Some _ => true | None => false end
  | _ => true
  end.
Proof.
  destruct object as [v t o i id ty c attrs l s].
  destruct ty; try reflexivity.
  cbn [well_linked TypeValue ObjectAttributes]. unfold entries_linked.
  induction attrs as [|[k value] attrs IH]; [reflexivity |].
  cbn [forallb snd]. now rewrite IH.
Qed.

Lemma value_layout_free_unfold (PrintComment : cmXCodeObject -> string)
    (object : cmXCodeObject) :
  TypeValue object = ATTRIBUTE_GROUP ->
  value_layout_free PrintComment object
  = entries_layout_free PrintComment (ObjectAttributes object).
Proof.
  destruct object as [v t o i id ty c attrs l s]. cbn [TypeValue].
  intros ->. cbn [value_layout_free TypeValue ObjectAttributes].
  unfold entries_layout_free.
  induction attrs as [|[k value] attrs IH]; [reflexivity |].
  cbn [forallb fst snd]. now rewrite IH.
Qed.

(** From [Some x = Some out] to [out := x], without touching [x]. *)
Ltac some_eq H :=
  match type of H with
  | Some ?x = Some ?y =>
      let E := fresh in
      assert (E : x = y) by (clear - H; congruence);
      clear H; subst y
  end.

Lemma forallb_printed_entries
    (p : string * option cmXCodeObject -> bool)
    (l : list (string * option cmXCodeObject)) :
  forallb p (printed_entries l)
  = forallb (fun kv => (true && String.eqb kv.1 "isa") || p kv) l.
Proof.
  unfold printed_entries.
  induction l as [|[k value] l IH]; [reflexivity |].
  rewrite filter_cons. cbn [forallb fst andb].
  destruct (String.eqb_spec k "isa") as [-> | Hk].
  - rewrite decide_False by tauto. exact IH.
  - rewrite decide_True by assumption. cbn [forallb orb]. now rewrite IH.
Qed.

Lemma Indent_mul_0 (level : nat) : Indent (level * 0) = EmptyString.
Proof. now rewrite Nat.mul_0_r. Qed.

Lemma layout_free_append (a b : string) :
  spec_layout_free (a +:+ b) = spec_layout_free a && spec_layout_free b.
Proof. apply all_append. Qed.

Lemma layout_free_escape_loop (s : string) :
  spec_layout_free s = true -> spec_layout_free (escape_loop s) = true.
Proof.
  unfold spec_layout_free.
  induction s as [|c s IH]; [reflexivity |].
  cbn [all escape_loop]. rewrite andb_true_iff. intros [Hc Hs].
  rewrite all_append. cbn [all]. rewrite Hc, IH by assumption.
  now destruct (Ascii.eqb c dquote || Ascii.eqb c backslash).
Qed.

(** Quoting brings in neither tab nor newline. *)
Lemma layout_free_PrintString (s : string) :
  spec_layout_free s = true -> spec_layout_free (PrintString s) = true.
Proof.
  intros H. unfold PrintString.
  rewrite !layout_free_append, layout_free_escape_loop by assumption.
  now destruct (needQuote s).
Qed.

Section Serializer.
Context (HasComment : cmXCodeObject -> bool).
Context (PrintComment : cmXCodeObject -> string).

Local Abbreviation list_loop := (list_loop PrintComment).
Local Abbreviation PrintAttribute :=
  (PrintAttribute HasComment PrintComment).
Local Abbreviation attribute_loop :=
  (attribute_loop HasComment PrintComment).
Local Abbreviation Print := (Print HasComment PrintComment).
Local Abbreviation PrintList := (PrintList HasComment PrintComment).
Local Abbreviation PrintList_loop :=
  (PrintList_loop HasComment PrintComment).

(** The loop inside the [ATTRIBUTE_GROUP] case is the attribute loop
    without the test for isa. *)
Lemma PrintAttribute_group (level : nat) (separator : string)
    (factor : nat) (name : string) (object parent : cmXCodeObject) :
  TypeValue object = ATTRIBUTE_GROUP ->
  PrintAttribute level separator factor name object parent =
  body ← attribute_loop false ((level + 1) * factor) separator factor
           object (ObjectAttributes object);
  Some (Indent (level * factor) +:+ name +:+ " = {" +:+
        (if String.eqb separator nl then separator else EmptyString)
        +:+ body +:+ Indent (level * factor) +:+ "};" +:+ separator).
Proof.
  intros Ht. destruct object as [v t o i id ty c attrs l s].
  cbn [TypeValue] in Ht. subst ty.
  cbn [Serial.PrintAttribute TypeValue ObjectAttributes].
  set (this := mk_cmXCodeObject v t o i id ATTRIBUTE_GROUP c attrs l s).
  f_equal. clearbody this.
  induction attrs as [|[k value] attrs IH]; [reflexivity |].
  cbn [Serial.attribute_loop andb]. now rewrite IH.
Qed.

Lemma PrintAttribute_cases (level : nat) (separator : string)
    (factor : nat) (name : string) (object parent : cmXCodeObject) :
  TypeValue object <> ATTRIBUTE_GROUP ->
  TypeValue object <> OBJECT_LIST ->
  PrintAttribute level separator factor name object parent =
  match TypeValue object with
  | OBJECT_REF =>
      target ← Object object;
      Some (Indent (level * factor) +:+ PrintString name +:+ " = " +:+
            Id target +:+
            (if HasComment target
                && negb (String.eqb name "remoteGlobalIDString")
             then PrintComment target else EmptyString) +:+
            ";" +:+ separator)
  | STRING =>
      Some (Indent (level * factor) +:+ PrintString name +:+ " = " +:+
            PrintString_of object +:+ ";" +:+ separator)
  | _ => Some (Indent (level * factor))
  end.
Proof.
  intros Hg Hl. destruct object as [v t o i id ty c attrs l s].
  cbn [TypeValue] in *. destruct ty; try congruence; reflexivity.
Qed.

(** The attribute loop succeeds when every printed entry is bound to a
    node that prints. *)
Lemma attribute_loop_is_Some (skip : bool) (level : nat)
    (separator : string) (factor : nat) (parent : cmXCodeObject)
    (l : list (string * option cmXCodeObject)) :
  Forall (fun kv => match kv.2 with
                    | Some child =>
                        forall lv nm pr,
                          is_Some (PrintAttribute lv separator factor nm
                                     child pr)
                          <-> well_linked child = true
                    | None => True
                    end) l ->
  is_Some (attribute_loop skip level separator factor parent l) <->
  forallb (fun kv => (skip && String.eqb kv.1 "isa")
                     || match kv.2 with
                        | Some child => well_linked child
                        | None => false
                        end) l = true.
Proof.
  induction 1 as [|[k value] l Hkv _ IH]; [cbn; split; eauto |].
  cbn [Serial.attribute_loop forallb fst snd] in *.
  destruct (skip && String.eqb k "isa"); [exact IH |].
  cbn [orb]. rewrite andb_true_iff, <- IH.
  destruct value as [child |]; cbn [mbind option_bind].
  - rewrite <- (Hkv level k parent).
    destruct (Serial.PrintAttribute _ _ _ _ _ _ _ _); cbn.
    + destruct (Serial.attribute_loop _ _ _ _ _ _ _ _); cbn;
        split; intros; try split; eauto;
        destruct_and?; try (by eapply is_Some_None); eauto.
    + split; [intros [? ?]; discriminate |].
      intros [[? ?] _]. discriminate.
  - split; [intros [? ?]; discriminate | intros [? _]; discriminate].
Qed.

Lemma PrintAttribute_is_Some (separator : string) (factor : nat)
    (object : cmXCodeObject) :
  forall level name parent,
    is_Some (PrintAttribute level separator factor name object parent)
    <-> well_linked object = true.
Proof.
  induction object as [object IH] using node_attributes_ind.
  intros level name parent. rewrite well_linked_unfold.
  destruct (decide (TypeValue object = ATTRIBUTE_GROUP)) as [Hg | Hg].
  - rewrite PrintAttribute_group, Hg by assumption.
    pose proof (attribute_loop_is_Some false ((level + 1) * factor)
                  separator factor object _ IH) as HL.
    cbn [andb orb] in HL. unfold entries_linked. rewrite <- HL.
    destruct (Serial.attribute_loop _ _ _ _ _ _ _ _); cbn;
      split; eauto; intros [? ?]; discriminate.
  - destruct (decide (TypeValue object = OBJECT_LIST)) as [Hl | Hl].
    + rewrite PrintAttribute_list, Hl by assumption. split; eauto.
    + rewrite PrintAttribute_cases by assumption.
      destruct (TypeValue object); try congruence;
        try (split; eauto; fail).
      destruct (Object object); cbn; [split; eauto |].
      split; [intros [? ?]; discriminate | discriminate].
Qed.

(** X13.  On an attribute value none of whose lists holds a null
    pointer (the embedding has no other value: the elements of [List_]
    are nodes, where the loop over [object->List] dereferences each
    element unchecked), [PrintAttribute] dereferences a null pointer
    exactly when the value has, at some depth, a reference whose link is
    unset or a group entry bound to no node; on every other such value
    it prints, whatever the layout, the name and the parent.  Nothing is
    said of a value with a null pointer in one of its lists. *)
Theorem PrintAttribute_null_free (level : nat) (separator : string)
    (factor : nat) (name : string) (object parent : cmXCodeObject) :
  (PrintAttribute level separator factor name object parent = None
   <-> well_linked object = false) /\
  (is_Some (PrintAttribute level separator factor name object parent)
   <-> well_linked object = true).
Proof.
  pose proof (PrintAttribute_is_Some separator factor object level name
                parent) as H.
  split; [| exact H].
  rewrite <- not_true_iff_false, <- H, <- eq_None_not_Some. reflexivity.
Qed.

(** X14.  [Print] succeeds exactly when every entry of the attribute
    map, those named isa apart, is bound to a node that prints; an entry
    named isa is never looked at, be it bound to null. *)
Theorem Print_null_free (this : cmXCodeObject) :
  is_Some (Print this) <->
  entries_linked (printed_entries (ObjectAttributes this)) = true.
Proof.
  unfold Serial.Print. destruct (Print_layout this) as [separator factor].
  assert (HL : is_Some (attribute_loop true 3 separator factor this
                          (ObjectAttributes this)) <->
               entries_linked (printed_entries (ObjectAttributes this))
               = true).
  { rewrite attribute_loop_is_Some.
    - unfold entries_linked, printed_entries. cbn [andb].
      induction (ObjectAttributes this) as [|[k value] l IHl];
        [reflexivity |].
      cbn [forallb fst snd]. rewrite filter_cons. cbn [fst].
      destruct (String.eqb_spec k "isa") as [-> | Hk].
      + rewrite decide_False by tauto. exact IHl.
      + rewrite decide_True by assumption. cbn [forallb orb snd].
        rewrite !andb_true_iff, IHl. reflexivity.
    - apply Forall_forall. intros [k [child |]] _; [| exact I]. cbn.
      intros. apply PrintAttribute_is_Some. }
  rewrite <- HL.
  destruct (Serial.attribute_loop _ _ _ _ _ _ _ _); cbn; split; eauto;
    intros [? ?]; discriminate.
Qed.

Lemma list_loop_layout_free (level size i : nat)
    (l : list cmXCodeObject) :
  forallb (fun e => if decide (TypeValue e = STRING)
                    then spec_layout_free (String_ e)
                    else spec_layout_free (Id e)
                         && spec_layout_free (PrintComment e)) l = true ->
  spec_layout_free (list_loop level 0 " " size i l) = true.
Proof.
  revert i. induction l as [|e l IH]; intros i H; [reflexivity |].
  cbn [forallb] in H. apply andb_true_iff in H as [He Hl].
  cbn [Serial.list_loop]. rewrite layout_free_append, IH by assumption.
  rewrite andb_true_r.
  destruct (decide (TypeValue e = STRING)).
  - rewrite layout_free_append. unfold PrintString_of.
    rewrite layout_free_PrintString by assumption.
    now destruct (i + 1 <? size).
  - apply andb_true_iff in He as [Hi Hc].
    rewrite Indent_mul_0, !layout_free_append, Hi, Hc. reflexivity.
Qed.

Lemma attribute_loop_layout_free (skip : bool) (level : nat)
    (parent : cmXCodeObject) (l : list (string * option cmXCodeObject)) :
  Forall (fun kv => match kv.2 with
                    | Some child =>
                        forall lv nm pr out,
                          spec_layout_free nm = true ->
                          value_layout_free PrintComment child = true ->
                          PrintAttribute lv " " 0 nm child pr = Some out ->
                          spec_layout_free out = true
                    | None => True
                    end) l ->
  forallb (fun kv => (skip && String.eqb kv.1 "isa")
                     || (spec_layout_free kv.1
                         && match kv.2 with
                            | Some child =>
                                value_layout_free PrintComment child
                            | None => true
                            end)) l = true ->
  forall out,
    attribute_loop skip level " " 0 parent l = Some out ->
    spec_layout_free out = true.
Proof.
  induction 1 as [|[k value] l Hkv _ IH]; intros Hf out Hout.
  - cbn in Hout. now injection Hout as <-.
  - cbn [forallb fst snd] in *. apply andb_true_iff in Hf as [Hk Hl].
    cbn [Serial.attribute_loop] in Hout.
    destruct (skip && String.eqb k "isa"); [now apply IH |].
    cbn [orb] in Hk. apply andb_true_iff in Hk as [Hn Hv].
    destruct value as [child |]; [| discriminate].
    cbn [mbind option_bind] in Hout.
    destruct (Serial.PrintAttribute _ _ level " " 0 k child parent)
      as [first |] eqn:E1; [| discriminate].
    destruct (Serial.attribute_loop _ _ skip level " " 0 parent l)
      as [others |] eqn:E2; [| discriminate].
    cbn in Hout. injection Hout as <-.
    rewrite layout_free_append, (Hkv _ _ _ _ Hn Hv E1), (IH Hl _ eq_refl).
    reflexivity.
Qed.

(** In the compact layout an attribute value brings in neither tab nor
    newline of its own. *)
Lemma PrintAttribute_layout_free (object : cmXCodeObject) :
  forall level name parent out,
    spec_layout_free name = true ->
    value_layout_free PrintComment object = true ->
    PrintAttribute level " " 0 name object parent = Some out ->
    spec_layout_free out = true.
Proof.
  induction object as [object IH] using node_attributes_ind.
  intros level name parent out Hn Hv Hout.
  destruct (decide (TypeValue object = ATTRIBUTE_GROUP)) as [Hg | Hg].
  - rewrite PrintAttribute_group in Hout by assumption.
    rewrite value_layout_free_unfold in Hv by assumption.
    destruct (Serial.attribute_loop _ _ false ((level + 1) * 0) " " 0
                object (ObjectAttributes object)) as [body |] eqn:E;
      [| discriminate].
    cbn [mbind option_bind] in Hout. some_eq Hout.
    assert (Hb : spec_layout_free body = true).
    { eapply attribute_loop_layout_free; [exact IH | | exact E].
      cbn [andb orb]. exact Hv. }
    rewrite Indent_mul_0.
    change (String.eqb " " nl) with false. cbv iota.
    rewrite !layout_free_append, Hn, Hb. reflexivity.
  - destruct (decide (TypeValue object = OBJECT_LIST)) as [Hl | Hl].
    + rewrite PrintAttribute_list in Hout by assumption.
      some_eq Hout.
      assert (Hv' : forallb
                (fun e => if decide (TypeValue e = STRING)
                          then spec_layout_free (String_ e)
                          else spec_layout_free (Id e)
                               && spec_layout_free (PrintComment e))
                (List_ object) = true).
      { destruct object as [v t o i id ty c attrs l s].
        cbn [TypeValue] in Hl. subst ty. exact Hv. }
      rewrite Indent_mul_0, !layout_free_append, Hn.
      rewrite (list_loop_layout_free level _ 0 _ Hv').
      now destruct (decide (TypeValue parent <> ATTRIBUTE_GROUP)).
    + rewrite PrintAttribute_cases in Hout by assumption.
      destruct object as [v t o i id ty c attrs l s].
      cbn [TypeValue Object PrintString_of String_] in *.
      destruct ty; try congruence.
      * some_eq Hout. cbn [value_layout_free TypeValue String_] in Hv.
        unfold PrintString_of. cbn [String_].
        rewrite Indent_mul_0, !layout_free_append.
        rewrite !layout_free_PrintString by assumption. reflexivity.
      * destruct o as [target |]; [| discriminate].
        cbn [mbind option_bind] in Hout. some_eq Hout.
        cbn [value_layout_free TypeValue Object] in Hv.
        apply andb_true_iff in Hv as [Hi Hc].
        rewrite Indent_mul_0, !layout_free_append.
        rewrite layout_free_PrintString, Hi by assumption.
        destruct (HasComment target && _); [rewrite Hc |]; reflexivity.
      * some_eq Hout. now rewrite Indent_mul_0.
Qed.

(** X15.  In the compact layout an Object is printed on one line: after
    its two tabs and before its final newline there is neither tab nor
    newline, provided that there is none in the identifier, the comment,
    the names and the values that are printed. *)
Theorem Print_compact_one_line (this : cmXCodeObject) (out : string) :
  (15 < Version this)%Z ->
  IsA this = PBXFileReference \/ IsA this = PBXBuildFile ->
  spec_layout_free (Id this) = true ->
  spec_layout_free (PrintComment this) = true ->
  entries_layout_free PrintComment (printed_entries (ObjectAttributes this))
  = true ->
  Print this = Some out ->
  exists line,
    out = Indent 2 +:+ line +:+ nl /\ spec_layout_free line = true.
Proof.
  intros Hv Ht Hi Hc He Hout.
  unfold Serial.Print in Hout.
  assert (HL : Print_layout this = (" ", 0)).
  { unfold Print_layout. rewrite bool_decide_eq_true_2 by assumption.
    destruct Ht as [-> | ->]; reflexivity. }
  rewrite HL in Hout.
  destruct (Serial.attribute_loop _ _ true 3 " " 0 this
              (ObjectAttributes this)) as [attributes |] eqn:E;
    [| discriminate].
  cbn [mbind option_bind] in Hout. some_eq Hout.
  assert (Ha : spec_layout_free attributes = true).
  { eapply attribute_loop_layout_free; [| | exact E].
    - apply Forall_forall. intros [k [child |]] _; [| exact I]. cbn.
      intros. eapply PrintAttribute_layout_free; eassumption.
    - unfold entries_layout_free in He.
      rewrite forallb_printed_entries in He. exact He. }
  exists (Id this +:+ PrintComment this +:+ " = {" +:+ "isa = " +:+
          PBXTypeName (IsA this) +:+ ";" +:+ " " +:+ attributes +:+ "};").
  split.
  - change (String.eqb " " nl) with false. cbv iota.
    change (Indent (3 * 0)) with EmptyString.
    change (Indent (2 * 0)) with EmptyString.
    change (Indent (2 * 1)) with (Indent 2).
    rewrite !append_assoc. reflexivity.
  - rewrite !layout_free_append, Hi, Hc, Ha.
    destruct Ht as [-> | ->]; reflexivity.
Qed.

(** X16.  An Object fresh from the constructor prints in the expanded
    layout as its identifier and its isa line alone, whatever its entity
    type and key: the constructor sets the version to 15, under which
    the compact layout is never chosen. *)
Theorem Print_constructed_object (CC_SHA256 : string -> list Byte.byte)
    (ptype : PBXType) (key : string) (st : IdState) :
  let this := (new_cmXCodeObject CC_SHA256 ptype OBJECT key st).1 in
  Print this =
  Some (Indent 2 +:+ Id this +:+ PrintComment this +:+ " = {" +:+ nl +:+
        Indent 3 +:+ "isa = " +:+ PBXTypeName ptype +:+ ";" +:+ nl +:+
        Indent 2 +:+ "};" +:+ nl).
Proof.
  intros this. unfold this.
  rewrite (IdentityMore.new_node CC_SHA256 ptype OBJECT key st).
  reflexivity.
Qed.

Lemma PrintList_loop_filter (objs : list cmXCodeObject) :
  PrintList_loop (filter (fun o => TypeValue o = OBJECT) objs)
  = PrintList_loop objs.
Proof.
  induction objs as [|o objs IH]; [reflexivity |].
  rewrite filter_cons. cbn [Serial.PrintList_loop].
  destruct (decide (TypeValue o = OBJECT)) as [Ho | Ho].
  - cbn [Serial.PrintList_loop]. rewrite decide_True by assumption.
    now rewrite IH.
  - rewrite IH. cbn [mbind option_bind].
    now destruct (PrintList_loop objs).
Qed.

Lemma PrintList_loop_app (a b : list cmXCodeObject) :
  PrintList_loop (a ++ b)
  = first ← PrintList_loop a; others ← PrintList_loop b;
    Some (first +:+ others).
Proof.
  induction a as [|o a IH].
  - cbn. now destruct (PrintList_loop b).
  - cbn [app Serial.PrintList_loop]. rewrite IH.
    destruct (if decide (TypeValue o = OBJECT) then _ else _); cbn;
      [| reflexivity].
    destruct (PrintList_loop a); cbn; [| reflexivity].
    destruct (PrintList_loop b); cbn; [| reflexivity].
    now rewrite append_assoc.
Qed.

(** X17.  [PrintList] prints the Objects of the list in their order,
    between the line that opens the block and the line that closes it,
    and nothing for a node of another kind: removing those nodes from
    the list does not change the text, and the text of the Objects of
    two lists one after the other is that of the first followed by that
    of the second. *)
Theorem PrintList_objects_only (a b : list cmXCodeObject) :
  PrintList (filter (fun o => TypeValue o = OBJECT) a) = PrintList a /\
  PrintList (a ++ b) =
    (first ← PrintList_loop a; others ← PrintList_loop b;
     Some (Indent 1 +:+ "objects = {" +:+ nl +:+ (first +:+ others) +:+
           Indent 1 +:+ "};" +:+ nl)).
Proof.
  unfold Serial.PrintList.
  rewrite PrintList_loop_filter, PrintList_loop_app. split; [reflexivity |].
  destruct (PrintList_loop a); cbn; [| reflexivity].
  now destruct (PrintList_loop b).
Qed.

(** X18.  What [PrintAttribute] writes starts with the indentation of
    the attribute; it ends with the separator for a value of every kind
    but [OBJECT], for which the indentation is all that is written:
    neither name nor terminator. *)
Theorem PrintAttribute_shape (level : nat) (separator : string)
    (factor : nat) (name : string) (object parent : cmXCodeObject)
    (out : string) :
  PrintAttribute level separator factor name object parent = Some out ->
  (exists rest, out = Indent (level * factor) +:+ rest) /\
  (TypeValue object <> OBJECT -> exists body, out = body +:+ separator) /\
  (TypeValue object = OBJECT -> out = Indent (level * factor)).
Proof.
  intros Hout.
  destruct (decide (TypeValue object = ATTRIBUTE_GROUP)) as [Hg | Hg].
  - rewrite PrintAttribute_group in Hout by assumption.
    destruct (Serial.attribute_loop _ _ _ _ _ _ _ _) as [body |];
      [| discriminate].
    cbn [mbind option_bind] in Hout. some_eq Hout.
    split; [eauto |]. split; [| congruence]. intros _.
    exists (Indent (level * factor) +:+ name +:+ " = {" +:+
            (if String.eqb separator nl then separator else EmptyString)
            +:+ body +:+ Indent (level * factor) +:+ "};").
    now rewrite !append_assoc.
  - destruct (decide (TypeValue object = OBJECT_LIST)) as [Hl | Hl].
    + rewrite PrintAttribute_list in Hout by assumption. some_eq Hout.
      split; [eauto |]. split; [| congruence]. intros _.
      exists (Indent (level * factor) +:+ name +:+ " = (" +:+
              (if decide (TypeValue parent <> ATTRIBUTE_GROUP)
               then separator else EmptyString) +:+
              list_loop level factor separator (length (List_ object)) 0
                (List_ object) +:+
              (if decide (TypeValue parent <> ATTRIBUTE_GROUP)
               then Indent (level * factor) else EmptyString) +:+ ");").
      now rewrite !append_assoc.
    + rewrite PrintAttribute_cases in Hout by assumption.
      destruct (TypeValue object) eqn:Ht; try congruence.
      * some_eq Hout. split; [eauto |]. split; [| congruence]. intros _.
        exists (Indent (level * factor) +:+ PrintString name +:+ " = " +:+
                PrintString_of object +:+ ";").
        now rewrite !append_assoc.
      * destruct (Object object) as [target |]; [| discriminate].
        cbn [mbind option_bind] in Hout. some_eq Hout.
        split; [eauto |]. split; [| congruence]. intros _.
        exists (Indent (level * factor) +:+ PrintString name +:+ " = " +:+
                Id target +:+
                (if HasComment target
                    && negb (String.eqb name "remoteGlobalIDString")
                 then PrintComment target else EmptyString) +:+ ";").
        now rewrite !append_assoc.
      * some_eq Hout. split; [exists EmptyString; now rewrite append_nil_r |].
        split; [congruence | reflexivity].
Qed.

End Serializer.

Example PrintAttribute_unset_reference :
  PrintAttribute comment_present comment_text 3 nl 1 "target"
    (blank_node OBJECT_REF) (blank_node OBJECT) = None /\
  PrintAttribute comment_present comment_text 3 nl 1 "settings"
    (group_node [("a", Some (string_node "1")); ("b", None)])
    (blank_node OBJECT) = None.
Proof. vm_compute. auto. Qed.

Lemma Print_compact_one_line_witness :
  let this :=
    object_node PBXFileReference 16 "0A1B2C3D4E5F60718293A4B5" "main.c"
      [("path", Some (string_node "src/main.c"));
       ("settings",
        Some (group_node
                [("flags", Some (list_node [string_node "-O2";
                                            string_node "-g"]))]))] in
  let out :=
    Indent 2 +:+
    ("0A1B2C3D4E5F60718293A4B5 /* main.c */ = {isa = PBXFileReference; " +:+
     "path = src/main.c; settings = {flags = (" +:+
     Str.chr Str.dquote +:+ "-O2" +:+ Str.chr Str.dquote +:+ "," +:+
     Str.chr Str.dquote +:+ "-g" +:+ Str.chr Str.dquote +:+
     "); }; };") +:+ nl in
  (15 < Version this)%Z /\
  Print comment_present comment_text this = Some out /\
  exists line,
    out = Indent 2 +:+ line +:+ nl /\ spec_layout_free line = true.
Proof.
  intros this out.
  assert (Hv : (15 < Version this)%Z) by reflexivity.
  assert (Hp : Print comment_present comment_text this = Some out)
    by (vm_compute; reflexivity).
  split; [exact Hv |]. split; [exact Hp |].
  exact (Print_compact_one_line comment_present comment_text this out
           Hv (or_introl eq_refl) eq_refl eq_refl eq_refl Hp).
Defined.

Lemma PrintAttribute_shape_witness :
  let object := ref_node (object_node PBXNativeTarget 15
                            "0A1B2C3D4E5F60718293A4B5" "MyApp" []) in
  let out := Indent 3 +:+ "target = 0A1B2C3D4E5F60718293A4B5 /* MyApp */;"
             +:+ nl in
  PrintAttribute comment_present comment_text 3 nl 1 "target" object
    (blank_node OBJECT) = Some out /\
  (exists rest, out = Indent (3 * 1) +:+ rest) /\
  (exists body, out = body +:+ nl).
Proof.
  intros object out.
  assert (Hp : PrintAttribute comment_present comment_text 3 nl 1 "target"
                 object (blank_node OBJECT) = Some out)
    by (vm_compute; reflexivity).
  destruct (PrintAttribute_shape comment_present comment_text 3 nl 1
              "target" object (blank_node OBJECT) out Hp) as (H1 & H2 & _).
  split; [exact Hp |]. split; [exact H1 |].
  apply H2. discriminate.
Defined.

(** X19.  After [CopyAttributes] from a node of the same kind the
    receiver is empty exactly when the source is; and of two copies in
    a row only the second one counts. *)
Theorem IsEmpty_CopyAttributes (this other copy : cmXCodeObject) :
  TypeValue this = TypeValue copy ->
  IsEmpty (CopyAttributes this copy) = IsEmpty copy /\
  CopyAttributes (CopyAttributes this other) copy = CopyAttributes this copy.
Proof.
  intros Ht. split; [| reflexivity].
  unfold IsEmpty. cbn [CopyAttributes TypeValue List_ String_
                       ObjectAttributes Object].
  now rewrite Ht.
Qed.

Lemma IsEmpty_CopyAttributes_witness :
  let this := string_node "old" in
  let copy := string_node EmptyString in
  TypeValue this = TypeValue copy /\
  IsEmpty this = false /\
  IsEmpty (CopyAttributes this copy) = true.
Proof.
  intros this copy.
  split; [reflexivity |]. split; [reflexivity |].
  rewrite (proj1 (IsEmpty_CopyAttributes this this copy eq_refl)).
  reflexivity.
Defined.

End SerializerMore.

(* ===================================================================== *)
(** * More about the NSIS generator *)
(* ===================================================================== *)

Module NSISMore.
Import Str StrFacts NSIS.

Lemma append_inv_head (a b c : string) : a +:+ b = a +:+ c -> b = c.
Proof.
  induction a as [|x a IH]; [auto |].
  cbn [String.append]. intros [= H]. auto.
Qed.

Section Generator.
Context (FindTemplate : string -> string).
Context (GetOption : string -> string).
Context (ConfigureFile : string -> string -> World -> World).
Context (RunSingleCommand : string -> Z -> bool * string * Z).
Context (ReadRegistryValue : string -> option string).
Context (FindProgram : string -> list string -> string).
Context (Superclass_Initialize : string -> World -> Z * World).

Local Abbreviation tmpFile := (tmpFile GetOption).
Local Abbreviation nsisFileName := (nsisFileName GetOption).
Local Abbreviation nsisCmd := (nsisCmd GetOption).
Local Abbreviation log_content := (log_content GetOption).
Local Abbreviation CompressFiles :=
  (CompressFiles FindTemplate GetOption ConfigureFile RunSingleCommand).
Local Abbreviation Initialize :=
  (Initialize ReadRegistryValue FindProgram Superclass_Initialize).
Local Abbreviation world_after_run :=
  (world_after_run FindTemplate GetOption ConfigureFile).

(** X20.  The log never overwrites the generated script: the two paths
    differ whatever the toplevel directory is, and after a failed run the
    script is in the state in which [ConfigureFile] left it. *)
Theorem log_spares_script (w : World) (res : bool) (output : string)
    (retVal : Z) :
  FindTemplate "NSIS.template.in" <> EmptyString ->
  RunSingleCommand nsisCmd 1%Z = (res, output, retVal) ->
  res = false \/ retVal <> 0%Z ->
  tmpFile <> nsisFileName /\
  files (CompressFiles w).2 !! nsisFileName
  = files (world_after_run w) !! nsisFileName /\
  options (CompressFiles w).2 = options (world_after_run w) /\
  cout (CompressFiles w).2 = cout (world_after_run w).
Proof.
  intros Ht Hr Hfail.
  assert (Hne : tmpFile <> nsisFileName).
  { unfold NSIS.tmpFile, NSIS.nsisFileName. intros E.
    apply append_inv_head in E. discriminate. }
  split; [exact Hne |].
  rewrite (NSISFacts.CompressFiles_run FindTemplate GetOption ConfigureFile
             RunSingleCommand w Ht), Hr.
  assert (F : negb res || negb (retVal =? 0)%Z = true).
  { destruct Hfail as [-> | Hz]; [reflexivity |].
    apply Z.eqb_neq in Hz. rewrite Hz. apply orb_true_r. }
  rewrite F. cbn [snd cerr_line write_file files options cout].
  split; [| split; reflexivity].
  now rewrite lookup_insert_ne.
Qed.

(** X21.  When the registry names a directory in which makensis is
    found, [Initialize] records the program, as the C string of its
    path, under CPACK_INSTALLER_PROGRAM: the path itself when it holds
    no NUL byte.  It changes no other option, writes nothing to the
    error stream, and returns what the superclass returned, be it a
    failure; on either of its own failures it sets no option. *)
Theorem Initialize_records_program (name : string) (w : World) :
  let super := Superclass_Initialize name
                 (cout_line "cmCPackNSISGenerator::Initialize()" w) in
  (forall nsisPath,
     ReadRegistryValue "HKEY_LOCAL_MACHINE\SOFTWARE\NSIS" = Some nsisPath ->
     FindProgram "makensis" [nsisPath] <> EmptyString ->
     (Initialize name w).1 = super.1 /\
     options (Initialize name w).2 !! "CPACK_INSTALLER_PROGRAM"
     = Some (c_str (FindProgram "makensis" [nsisPath])) /\
     (all not_nul (FindProgram "makensis" [nsisPath]) = true ->
      options (Initialize name w).2 !! "CPACK_INSTALLER_PROGRAM"
      = Some (FindProgram "makensis" [nsisPath])) /\
     (forall other, other <> "CPACK_INSTALLER_PROGRAM" ->
        options (Initialize name w).2 !! other = options super.2 !! other) /\
     cerr (Initialize name w).2 = cerr super.2 /\
     files (Initialize name w).2 = files super.2)
  /\
  ((ReadRegistryValue "HKEY_LOCAL_MACHINE\SOFTWARE\NSIS" = None \/
    exists nsisPath,
      ReadRegistryValue "HKEY_LOCAL_MACHINE\SOFTWARE\NSIS" = Some nsisPath /\
      FindProgram "makensis" [nsisPath] = EmptyString) ->
   options (Initialize name w).2 = options super.2 /\
   files (Initialize name w).2 = files super.2).
Proof.
  intros super. unfold super, NSIS.Initialize.
  destruct (Superclass_Initialize name _) as [r w1]. cbn [fst snd].
  split.
  - intros nsisPath E P. rewrite E.
    destruct (FindProgram "makensis" [nsisPath]) as [|c prog] eqn:F;
      [congruence |].
    cbn [empty fst snd SetOption options cerr files].
    split; [reflexivity |]. split; [apply lookup_insert_eq |].
    split.
    { intros Hn. rewrite (c_str_id _ Hn). apply lookup_insert_eq. }
    split; [| split; reflexivity].
    intros other Ho. now rewrite lookup_insert_ne.
  - intros [E | (nsisPath & E & P)]; rewrite E; [| rewrite P]; auto.
Qed.

End Generator.

Lemma log_spares_script_witness :
  let run := CompressFiles example_template_found example_options
               example_configure example_run_exit_1 World_init in
  example_template_found "NSIS.template.in" <> EmptyString /\
  example_run_exit_1 (nsisCmd example_options) 1%Z
  = (true, "Error: cannot open script", 1%Z) /\
  tmpFile example_options <> nsisFileName example_options /\
  files run.2 !! nsisFileName example_options
  = Some "; configured from /usr/share/cmake/NSIS.template.in".
Proof.
  intros run.
  assert (Ht : example_template_found "NSIS.template.in" <> EmptyString)
    by discriminate.
  assert (Hr : example_run_exit_1 (nsisCmd example_options) 1%Z
               = (true, "Error: cannot open script", 1%Z)) by reflexivity.
  destruct (log_spares_script example_template_found example_options
              example_configure example_run_exit_1 World_init
              true "Error: cannot open script" 1%Z Ht Hr
              ltac:(right; discriminate)) as (Hne & Hf & _).
  split; [exact Ht |]. split; [exact Hr |]. split; [exact Hne |].
  unfold run. rewrite Hf. vm_compute. reflexivity.
Defined.

(** A registry that names the directory of NSIS and a search that finds
    the compiler there. *)
Lemma Initialize_records_program_witness :
  let registry := fun key : string => Some "C:/NSIS" in
  let find_program := fun (name : string) (path : list string) =>
    match path with
    | [] => EmptyString
    | dir :: _ => dir +:+ "/" +:+ name +:+ ".exe"
    end in
  let super_fails := fun (name : string) (w : World) => (0%Z, w) in
  let result := Initialize registry find_program super_fails "NSIS"
                  World_init in
  registry "HKEY_LOCAL_MACHINE\SOFTWARE\NSIS" = Some "C:/NSIS" /\
  find_program "makensis" ["C:/NSIS"] <> EmptyString /\
  result.1 = 0%Z /\
  options result.2 !! "CPACK_INSTALLER_PROGRAM"
  = Some "C:/NSIS/makensis.exe".
Proof.
  intros registry find_program super_fails result.
  assert (Hr : registry "HKEY_LOCAL_MACHINE\SOFTWARE\NSIS" = Some "C:/NSIS")
    by reflexivity.
  assert (Hf : find_program "makensis" ["C:/NSIS"] <> EmptyString)
    by discriminate.
  destruct (Initialize_records_program registry find_program super_fails
              "NSIS" World_init) as [Hok _].
  destruct (Hok "C:/NSIS" Hr Hf) as (H1 & _ & H2 & _).
  split; [exact Hr |]. split; [exact Hf |].
  split; [exact H1 | exact (H2 eq_refl)].
Defined.

End NSISMore.
